(** * Verification model of the authentication gate and the image pipeline
    of the danphoto API (src/api/auth.rs, src/api/error.rs and the image
    handlers under src/api/handlers).

    Strings are modelled as Rocq [string] (one [ascii] per byte), integers
    of the Rust code as [Z] with their wrap-around written out, the image
    directories as a [gmap] from path to file contents. *)

From Stdlib Require Import ZArith String Ascii Lia Bool.
From Stdlib Require Import DecimalString DecimalZ.
From stdpp Require Import base gmap strings.

Open Scope string_scope.
Open Scope Z_scope.

(** stdpp makes [String.append] opaque to [simpl]; restore reduction. *)
#[local] Arguments String.append : simpl nomatch.

(* ------------------------------------------------------------------ *)
(** ** Generic helpers over strings (the [str] methods the code uses) *)

Module Str.

(** [str::strip_prefix] *)
Fixpoint strip_prefix (p s : string) : option string :=
  match p, s with
  | EmptyString, _ => Some s
  | String c p', String d s' =>
      if Ascii.eqb c d then strip_prefix p' s' else None
  | String _ _, EmptyString => None
  end.

Definition starts_with (s p : string) : bool :=
  match strip_prefix p s with Some _ => true | None => false end.

(** [str::split_once] on a pattern: the first occurrence splits. *)
Fixpoint split_once (pat s : string) : option (string * string) :=
  match strip_prefix pat s with
  | Some rest => Some (EmptyString, rest)
  | None =>
      match s with
      | EmptyString => None
      | String c s' =>
          match split_once pat s' with
          | Some (l, r) => Some (String c l, r)
          | None => None
          end
      end
  end.

(** [char::is_whitespace] restricted to one byte: U+0009..U+000D and
    U+0020 (the ASCII members of Unicode White_Space). *)
Definition is_ws (c : ascii) : bool :=
  let n := nat_of_ascii c in
  ((9 <=? n) && (n <=? 13))%nat || (n =? 32)%nat.

Fixpoint trim_start (s : string) : string :=
  match s with
  | EmptyString => EmptyString
  | String c s' => if is_ws c then trim_start s' else s
  end.

Definition rev_str (s : string) : string :=
  string_of_list_ascii (List.rev (list_ascii_of_string s)).

Definition trim_end (s : string) : string := rev_str (trim_start (rev_str s)).

(** [str::trim] *)
Definition trim (s : string) : string := trim_end (trim_start s).

(** [str::to_lowercase] on the ASCII range. *)
Definition lower_char (c : ascii) : ascii :=
  let n := nat_of_ascii c in
  if ((65 <=? n) && (n <=? 90))%nat then ascii_of_nat (n + 32) else c.

Fixpoint to_lowercase (s : string) : string :=
  match s with
  | EmptyString => EmptyString
  | String c s' => String (lower_char c) (to_lowercase s')
  end.

Definition is_empty (s : string) : bool :=
  match s with EmptyString => true | _ => false end.

End Str.

(* ------------------------------------------------------------------ *)
(** ** JSON bodies and HTTP responses *)

#[warnings="-register-all"]
Inductive json :=
| JStr (s : string)
| JBool (b : bool)
| JObj (fields : list (string * json)).

Record response := mk_response { status : Z; body : json }.

Definition UNAUTHORIZED : Z := 401.
Definition NOT_FOUND : Z := 404.
Definition BAD_REQUEST : Z := 400.
Definition INTERNAL_SERVER_ERROR : Z := 500.

(** [serde_json::json!({ "error": msg })] *)
Definition error_body (msg : string) : json := JObj [("error", JStr msg)].


(* ------------------------------------------------------------------ *)
(** ** The compact token format of the [jsonwebtoken] crate

    A token is [header "." payload "." signature], each segment in an
    alphabet without ['.'].  The crate uses base64url over JSON and
    HMAC-SHA256; here each segment is the hex text of its content, the
    payload is the decimal [exp] (hex-quoted) and the [sub] after a [":"],
    and [hmac] is a deterministic keyed tag standing for HMAC-SHA256.
    No property below depends on the strength of the tag, only on the
    fact that decoding recomputes it with the verifier's secret. *)

Module Jwt.

Definition hex_digit (n : nat) : ascii :=
  match n with
  | 0 => "0" | 1 => "1" | 2 => "2" | 3 => "3" | 4 => "4" | 5 => "5"
  | 6 => "6" | 7 => "7" | 8 => "8" | 9 => "9" | 10 => "a" | 11 => "b"
  | 12 => "c" | 13 => "d" | 14 => "e" | _ => "f"
  end%nat%char.

Definition hex_val (c : ascii) : option nat :=
  let n := nat_of_ascii c in
  if ((48 <=? n) && (n <=? 57))%nat then Some (n - 48)%nat
  else if ((97 <=? n) && (n <=? 102))%nat then Some (n - 87)%nat
  else None.

Definition hex_enc_char (a : ascii) : string :=
  let n := nat_of_ascii a in
  String (hex_digit (n / 16)) (String (hex_digit (n mod 16)) EmptyString).

Fixpoint hex_enc (s : string) : string :=
  match s with
  | EmptyString => EmptyString
  | String a s' => hex_enc_char a ++ hex_enc s'
  end.

Fixpoint hex_dec (s : string) : option string :=
  match s with
  | EmptyString => Some EmptyString
  | String h (String l s') =>
      match hex_val h, hex_val l, hex_dec s' with
      | Some x, Some y, Some r => Some (String (ascii_of_nat (16 * x + y)) r)
      | _, _, _ => None
      end
  | String _ EmptyString => None
  end.

(** Decimal text of a [Z] and back (serde's integer format). *)
Definition z_to_dec (z : Z) : string := NilEmpty.string_of_int (Z.to_int z).
Definition dec_to_z (s : string) : option Z :=
  option_map Z.of_int (NilEmpty.int_of_string s).

(** Stand-in for HMAC-SHA256: a keyed polynomial tag modulo 2^64. *)
Fixpoint tag_acc (acc : Z) (s : string) : Z :=
  match s with
  | EmptyString => acc
  | String c s' => tag_acc ((acc * 131 + Z.of_nat (nat_of_ascii c)) mod 2^64) s'
  end.
Definition hmac (key msg : string) : Z := tag_acc 7 (key ++ ":" ++ msg).

(** [Claims { sub, exp }] of auth.rs *)
Record Claims := mk_claims { sub : string; exp : Z }.

(** [Algorithm::HS256], the algorithm of [Header::default()]. *)
Definition HS256 : string := "HS256".

Definition payload_text (c : Claims) : string :=
  hex_enc (z_to_dec (exp c)) ++ ":" ++ sub c.

Definition signing_input (alg : string) (c : Claims) : string :=
  hex_enc alg ++ "." ++ hex_enc (payload_text c).

(** [encode(&Header::default(), &claims, &EncodingKey::from_secret(secret))] *)
Definition encode (c : Claims) (secret : string) : string :=
  let si := signing_input HS256 c in
  si ++ "." ++ hex_enc (z_to_dec (hmac secret si)).

(** [Validation::default()]: algorithms [HS256], [leeway = 60],
    [validate_exp = true], required claim [exp]. *)
Record Validation := mk_validation { algorithms : list string; leeway : Z }.
Definition validation_default : Validation := mk_validation [HS256] 60.

Inductive ErrorKind :=
| InvalidToken | InvalidAlgorithm | InvalidSignature | Json
| MissingRequiredClaim | ExpiredSignature.

(** [decode::<Claims>(token, &DecodingKey::from_secret(secret), &v)] at
    Unix time [now]: split, algorithm check, signature check, claims
    parsing ([exp] must parse as a [u64]), then
    [exp < now - leeway] rejects with [ExpiredSignature]. *)
Definition decode (token secret : string) (v : Validation) (now : Z)
  : ErrorKind + Claims :=
  match Str.split_once "." token with
  | None => inl InvalidToken
  | Some (h, rest) =>
      match Str.split_once "." rest with
      | None => inl InvalidToken
      | Some (p, sg) =>
          match hex_dec h with
          | None => inl InvalidToken
          | Some alg =>
              if negb (existsb (String.eqb alg) (algorithms v)) then inl InvalidAlgorithm
              else if negb (String.eqb sg (hex_enc (z_to_dec (hmac secret (h ++ "." ++ p)))))
              then inl InvalidSignature
              else
                match hex_dec p with
                | None => inl InvalidToken
                | Some pl =>
                    match Str.split_once ":" pl with
                    | None => inl Json
                    | Some (e, s) =>
                        match option_bind _ _ dec_to_z (hex_dec e) with
                        | None => inl Json
                        | Some ex =>
                            if ex <? 0 then inl MissingRequiredClaim
                            else if ex <? now - leeway v then inl ExpiredSignature
                            else inr (mk_claims s ex)
                        end
                    end
                end
          end
      end
  end.

(** Rust [i64] wrap-around (release build arithmetic). *)
Definition wrap_i64 (z : Z) : Z := ((z + 2^63) mod 2^64) - 2^63.

(** [create_token(email, secret, exp_secs)] issued at Unix time [now]. *)
Definition create_token (email secret : string) (exp_secs now : Z) : string :=
  let exp := wrap_i64 (now + exp_secs) in
  encode (mk_claims email exp) secret.

End Jwt.

(* ------------------------------------------------------------------ *)
(** ** Domain and API errors (src/domain/repositories/error.rs,
       src/api/error.rs) *)

(** [DomainError]; the [anyhow::Error] of [Repository] is kept as its
    message. *)
Inductive DomainError :=
| NotFound (msg : string)
| Validation (msg : string)
| Repository (msg : string).

(** The [thiserror] [Display] of [DomainError]. *)
Definition domain_error_to_string (e : DomainError) : string :=
  match e with
  | NotFound m => "not found: " ++ m
  | Validation m => "validation: " ++ m
  | Repository m => "repository: " ++ m
  end.

(** [pub struct ApiError(pub DomainError)] *)
Inductive ApiError := ApiError_ (e : DomainError).

(** [impl IntoResponse for ApiError] *)
Definition api_error_into_response (a : ApiError) : response :=
  let '(ApiError_ e) := a in
  match e with
  | NotFound _ => mk_response NOT_FOUND (error_body (domain_error_to_string e))
  | Validation _ => mk_response BAD_REQUEST (error_body (domain_error_to_string e))
  | Repository _ =>
      mk_response INTERNAL_SERVER_ERROR (error_body "Error interno del servidor")
  end.

(* ------------------------------------------------------------------ *)
(** ** Request authentication (src/api/auth.rs) *)

Module Auth.

Inductive AuthError := Missing | Invalid.

(** [HeaderValue::to_str]: succeeds iff every byte is visible ASCII
    (0x20..0x7e) or a tab. *)
Definition is_visible_ascii (c : ascii) : bool :=
  let n := nat_of_ascii c in
  ((32 <=? n) && (n <? 127))%nat || (n =? 9)%nat.

Definition header_to_str (h : string) : option string :=
  if forallb is_visible_ascii (list_ascii_of_string h) then Some h else None.

(** [BearerAuth::from_header_and_secret], verifying at Unix time [now];
    [Ok(BearerAuth(sub))] is [inr sub]. *)
Definition from_header_and_secret (auth_header : option string)
    (secret : string) (now : Z) : AuthError + string :=
  match auth_header with
  | None => inl Missing
  | Some header =>
      match header_to_str header with
      | None => inl Invalid
      | Some s =>
          match Str.strip_prefix "Bearer " s with
          | None => inl Invalid
          | Some token =>
              match Jwt.decode token secret Jwt.validation_default now with
              | inl _ => inl Invalid
              | inr token_data => inr (Jwt.sub token_data)
              end
          end
      end
  end.

(** [impl IntoResponse for AuthError] *)
Definition auth_error_into_response (e : AuthError) : response :=
  let '(st, msg) :=
    match e with
    | Missing => (UNAUTHORIZED, "Authorization header missing")
    | Invalid => (UNAUTHORIZED, "Invalid or expired token")
    end in
  mk_response st (error_body msg).

(** [FromRequestParts for BearerAuth]: the rejection is the response of
    the [AuthError]; the handler runs only on [inr]. *)
Definition bearer_auth (auth_header : option string) (jwt_secret : string)
    (now : Z) : response + string :=
  match from_header_and_secret auth_header jwt_secret now with
  | inl e => inl (auth_error_into_response e)
  | inr email => inr email
  end.

(** [AuthUser] as read by [AuthRepository::get_by_email]. *)
Record AuthUser := mk_auth_user { id : string; email : string; password_hash : string }.

(** The [AuthRepository] capability: [get_by_email]. *)
Definition get_by_email_fn := string -> DomainError + option AuthUser.

(** [AuthRepositoryImpl::get_by_email] over a table of rows:
    [SELECT ... FROM usuarios WHERE email = $1] (email unique). *)
Definition table_get_by_email (rows : list AuthUser) : get_by_email_fn :=
  fun e => inr (List.find (fun u => String.eqb (email u) e) rows).

(** [user_id_from_auth] *)
Definition user_id_from_auth (get_by_email : get_by_email_fn) (email : string)
  : ApiError + string :=
  match get_by_email email with
  | inl e => inl (ApiError_ e)
  | inr user =>
      match user with
      | Some u => inr (id u)
      | None => inl (ApiError_ (NotFound "Usuario no encontrado"))
      end
  end.

Record LoginRequest := mk_login_request { req_email : string; req_password : string }.
Record LoginResponse := mk_login_response { token : string; token_type : string }.

(** [bcrypt::verify(password, hash)]: [Err] on a malformed hash. *)
Definition bcrypt_verify_fn := string -> string -> string + bool.

(** [login].  [create_token] with an HMAC key and [Header::default()]
    cannot fail, so its [map_err] branch is not reachable and the token
    is produced directly. *)
Definition login (get_by_email : get_by_email_fn) (bcrypt_verify : bcrypt_verify_fn)
    (jwt_secret : string) (now : Z) (body : LoginRequest)
  : (Z * json) + LoginResponse :=
  let email := Str.trim (req_email body) in
  match get_by_email email with
  | inl _ => inl (INTERNAL_SERVER_ERROR, error_body "Error al buscar usuario")
  | inr None => inl (UNAUTHORIZED, error_body "Usuario o contraseña incorrectos")
  | inr (Some (mk_auth_user _ user_email user_password_hash)) =>
      let ok := match bcrypt_verify (req_password body) user_password_hash with
                | inr b => b
                | inl _ => false
                end in
      if negb ok then inl (UNAUTHORIZED, error_body "Usuario o contraseña incorrectos")
      else
        let token := Jwt.create_token user_email jwt_secret (24 * 3600) now in
        inr (mk_login_response token "Bearer")
  end.

End Auth.

(* ------------------------------------------------------------------ *)
(** ** Image ingestion and serving (the [save_*_image_base64] and
       [get_*_image] functions of src/api/handlers) *)

Module Image.

(** *** [base64::engine::general_purpose::STANDARD] decoding
    Standard alphabet, canonical padding required, non-zero trailing
    bits rejected. *)

Definition b64_val (c : ascii) : option Z :=
  let n := Z.of_nat (nat_of_ascii c) in
  if (65 <=? n) && (n <=? 90) then Some (n - 65)
  else if (97 <=? n) && (n <=? 122) then Some (n - 71)
  else if (48 <=? n) && (n <=? 57) then Some (n + 4)
  else if n =? 43 then Some 62
  else if n =? 47 then Some 63
  else None.

Inductive DecodeError :=
| InvalidByte (offset : nat) (b : ascii)
| InvalidLength
| InvalidLastSymbol (offset : nat) (b : ascii)
| InvalidPadding.

Definition nat_text (n : nat) : string := NilEmpty.string_of_uint (Nat.to_uint n).

(** [impl Display for DecodeError] *)
Definition decode_error_to_string (e : DecodeError) : string :=
  match e with
  | InvalidByte o b =>
      "Invalid symbol " ++ nat_text (nat_of_ascii b) ++ ", offset " ++ nat_text o ++ "."
  | InvalidLength => "Invalid input length."
  | InvalidLastSymbol o b =>
      "Invalid last symbol " ++ nat_text (nat_of_ascii b) ++ ", offset " ++ nat_text o ++ "."
  | InvalidPadding => "Invalid padding"
  end.

Definition byte_of_Z (z : Z) : Byte.byte :=
  match Byte.of_N (Z.to_N z) with Some b => b | None => Byte.x00 end.

Definition pad : ascii := "=".

Fixpoint b64_decode_from (off : nat) (s : string) : DecodeError + list Byte.byte :=
  match s with
  | EmptyString => inr []
  | String a (String b (String c (String d rest))) =>
      match b64_val a, b64_val b with
      | None, _ => inl (InvalidByte off a)
      | _, None => inl (InvalidByte (off + 1)%nat b)
      | Some va, Some vb =>
          if Ascii.eqb c pad && Ascii.eqb d pad then
            if Str.is_empty rest then
              if Z.land vb 15 =? 0 then inr [byte_of_Z (va * 4 + vb / 16)]
              else inl (InvalidLastSymbol (off + 1)%nat b)
            else inl (InvalidByte (off + 2)%nat c)
          else
            match b64_val c with
            | None => inl (InvalidByte (off + 2)%nat c)
            | Some vc =>
                if Ascii.eqb d pad then
                  if Str.is_empty rest then
                    if Z.land vc 3 =? 0 then
                      inr [byte_of_Z (va * 4 + vb / 16);
                           byte_of_Z ((vb mod 16) * 16 + vc / 4)]
                    else inl (InvalidLastSymbol (off + 2)%nat c)
                  else inl (InvalidByte (off + 3)%nat d)
                else
                  match b64_val d with
                  | None => inl (InvalidByte (off + 3)%nat d)
                  | Some vd =>
                      match b64_decode_from (off + 4)%nat rest with
                      | inl e => inl e
                      | inr tl =>
                          inr (byte_of_Z (va * 4 + vb / 16)
                               :: byte_of_Z ((vb mod 16) * 16 + vc / 4)
                               :: byte_of_Z ((vc mod 4) * 64 + vd) :: tl)
                      end
                  end
            end
      end
  | String _ EmptyString => inl InvalidLength
  | _ => inl InvalidPadding
  end.

(** [STANDARD.decode(payload)] *)
Definition b64_decode (s : string) : DecodeError + list Byte.byte := b64_decode_from 0 s.

(** *** The decoding half shared, word for word, by
    [save_pose_image_base64], [save_post_image_base64],
    [save_portfolio_image_base64], [save_evento_image_base64],
    [save_place_image_base64], [save_theme_image_base64] and
    [save_profile_avatar_base64]: the bytes and the extension. *)
Definition decode_image_base64 (image_base64 : string)
  : ApiError + (list Byte.byte * string) :=
  let parsed :=
    match Str.strip_prefix "data:" image_base64 with
    | Some rest =>
        match Str.split_once ";base64," rest with
        | None => inl (ApiError_ (Validation
            "formato base64 inválido: se esperaba data:image/...;base64,..."))
        | Some (mime, b64) =>
            let ext := if Str.starts_with (Str.to_lowercase (Str.trim mime)) "image/png"
                       then "png" else "jpg" in
            inr (Str.trim b64, ext)
        end
    | None => inr (Str.trim image_base64, "jpg")
    end in
  match parsed with
  | inl e => inl e
  | inr (payload, ext) =>
      match b64_decode payload with
      | inl e => inl (ApiError_ (Validation ("base64 inválido: " ++ decode_error_to_string e)))
      | inr bytes =>
          match bytes with
          | [] => inl (ApiError_ (Validation "imagen vacía"))
          | _ => inr (bytes, ext)
          end
      end
  end.

(** *** The image directories.  Each directory is a flat name space; the
    state is the map from full path to file contents.  [create_dir_all]
    and [fs::write] are taken to succeed (the claims below are about runs
    where the write went through). *)
Abbreviation fs := (gmap string (list Byte.byte)).

(** [Path::new(dir).join(name)] *)
Definition path_join (dir name : string) : string :=
  if String.eqb (Str.rev_str (String.substring 0 1 (Str.rev_str dir))) "/"
  then dir ++ name else dir ++ "/" ++ name.

Definition image_path (dir id ext : string) : string :=
  path_join dir (id ++ "." ++ ext).

(** [fs::write(path, bytes)] *)
Definition fs_write (st : fs) (path : string) (bytes : list Byte.byte) : fs :=
  <[path := bytes]> st.

(** [let _ = fs::remove_file(path)] *)
Definition fs_remove (st : fs) (path : string) : fs := delete path st.

(** [save_pose_image_base64] (also [save_portfolio_image_base64] with
    its own URL prefix). *)
Definition save_image_base64 (url_prefix : string) (dir id image_base64 : string)
    (st : fs) : fs * (ApiError + string) :=
  match decode_image_base64 image_base64 with
  | inl e => (st, inl e)
  | inr (bytes, ext) =>
      (fs_write st (image_path dir id ext) bytes,
       inr (url_prefix ++ id ++ "/image"))
  end.

Definition save_pose_image_base64 := save_image_base64 "/api/poses/".
Definition save_portfolio_image_base64 := save_image_base64 "/api/portfolio/images/".

(** [get_pose_image]: probe [png], [jpg], [jpeg] in this order. *)
Definition content_type_of (ext : string) : string :=
  if String.eqb ext "png" then "image/png" else "image/jpeg".

Fixpoint probe (dir id : string) (exts : list string) (st : fs)
  : option (list Byte.byte * string) :=
  match exts with
  | [] => None
  | ext :: exts' =>
      match st !! image_path dir id ext with
      | Some bytes => Some (bytes, content_type_of ext)
      | None => probe dir id exts' st
      end
  end.

Definition get_pose_image (dir id : string) (st : fs)
  : ApiError + (list Byte.byte * string) :=
  match probe dir id ["png"; "jpg"; "jpeg"] st with
  | Some r => inr r
  | None => inl (ApiError_ (NotFound ("Imagen no encontrada para la pose " ++ id)))
  end.

(** [get_portfolio_image] (portfolio.rs): the same probe, its own message. *)
Definition get_portfolio_image (dir id : string) (st : fs)
  : ApiError + (list Byte.byte * string) :=
  match probe dir id ["png"; "jpg"; "jpeg"] st with
  | Some r => inr r
  | None => inl (ApiError_ (NotFound ("Imagen no encontrada para el portfolio " ++ id)))
  end.

(** The store operation of the asset contract: write [bytes] under
    [dir/{id}.{ext}] (the write step of every [save_*_image_base64]). *)
Definition store (dir id : string) (bytes : list Byte.byte) (ext : string) (st : fs) : fs :=
  fs_write st (image_path dir id ext) bytes.

End Image.

(* ------------------------------------------------------------------ *)
(** ** Create-with-image handlers.  The repository insert is a
       collaborator passed as a function; [id] is the [Uuid::new_v4()]
       drawn by the handler. *)

Module Handlers.
Import Image.

Record Pose := mk_pose { pose_id : string; pose_url : string }.
Record PortfolioImage := mk_portfolio_image
  { pimg_id : string; pimg_category_id : string; pimg_url : string }.
Record Post := mk_post
  { post_id : string; post_description : option string; post_url : option string;
    post_user_id : option string; post_theme_of_the_day_id : string }.

(** [create_pose] (poses.rs): the [?] on the insert returns at once. *)
Definition create_pose (poses_images_dir id : string)
    (create_with_id : string -> string -> DomainError + Pose)
    (image_base64 : string) (st : fs) : fs * (ApiError + Pose) :=
  if Str.is_empty (Str.trim image_base64) then
    (st, inl (ApiError_ (Validation "image_base64 es requerido")))
  else
    let '(st1, r) := save_pose_image_base64 poses_images_dir id image_base64 st in
    match r with
    | inl e => (st1, inl e)
    | inr url =>
        match create_with_id id url with
        | inl e => (st1, inl (ApiError_ e))
        | inr item => (st1, inr item)
        end
    end.

(** [for ext in ["png", "jpg", "jpeg"] { let _ = fs::remove_file(..) }] *)
Definition remove_all_exts (dir id : string) (st : fs) : fs :=
  List.fold_left (fun s ext => fs_remove s (image_path dir id ext))
    ["png"; "jpg"; "jpeg"] st.

(** [add_portfolio_image] (portfolio.rs): on a failed insert the files
    of every extension are removed and the insert error returned. *)
Definition add_portfolio_image (portfolio_images_dir id category_id : string)
    (create_image_with_id : string -> string -> string -> DomainError + PortfolioImage)
    (image_base64 : string) (st : fs) : fs * (ApiError + PortfolioImage) :=
  if Str.is_empty (Str.trim image_base64) then
    (st, inl (ApiError_ (Validation "image_base64 es requerido")))
  else
    let dir := portfolio_images_dir in
    let '(st1, r) := save_portfolio_image_base64 dir id image_base64 st in
    match r with
    | inl e => (st1, inl e)
    | inr url =>
        match create_image_with_id id category_id url with
        | inr item => (st1, inr item)
        | inl e => (remove_all_exts dir id st1, inl (ApiError_ e))
        end
    end.

(** [resolve_posts_dir], with the process working directory [cwd]. *)
Definition resolve_posts_dir (cwd dir : string) : string :=
  if Str.starts_with dir "/" then dir else path_join cwd dir.

Definition save_post_image_base64 (cwd dir id image_base64 : string) (st : fs) :=
  save_image_base64 "/api/posts/" (resolve_posts_dir cwd dir) id image_base64 st.

Record CreatePostRequest := mk_create_post_request
  { cp_description : option string; cp_image_base64 : string;
    cp_theme_of_the_day_id : string }.

(** [create_post] (posts.rs), after the gate yielded [auth_email]. *)
Definition create_post (cwd posts_images_dir id auth_email : string)
    (get_by_email : Auth.get_by_email_fn)
    (create_with_id : string -> option string -> option string -> option string ->
                      string -> DomainError + Post)
    (body : CreatePostRequest) (st : fs) : fs * (ApiError + Post) :=
  if Str.is_empty (Str.trim (cp_image_base64 body)) then
    (st, inl (ApiError_ (Validation "image_base64 es requerido")))
  else if Str.is_empty (Str.trim (cp_theme_of_the_day_id body)) then
    (st, inl (ApiError_ (Validation "theme_of_the_day_id es requerido")))
  else
    match get_by_email auth_email with
    | inl e => (st, inl (ApiError_ e))
    | inr user =>
        let user_id := option_map Auth.id user in
        let '(st1, r) := save_post_image_base64 cwd posts_images_dir id
                           (cp_image_base64 body) st in
        match r with
        | inl e => (st1, inl e)
        | inr url =>
            match create_with_id id (cp_description body) (Some url) user_id
                    (Str.trim (cp_theme_of_the_day_id body)) with
            | inl e => (st1, inl (ApiError_ e))
            | inr item => (st1, inr item)
            end
        end
    end.

(** [get_favorite_poses] (favorites.rs), after the gate. *)
Definition get_favorite_poses (get_by_email : Auth.get_by_email_fn)
    (favorites_of : string -> DomainError + list Pose) (auth_email : string)
  : ApiError + list Pose :=
  match Auth.user_id_from_auth get_by_email auth_email with
  | inl e => inl e
  | inr user_id =>
      match favorites_of user_id with
      | inl e => inl (ApiError_ e)
      | inr items => inr items
      end
  end.

(** A request to an authenticated handler: the gate, then the handler;
    an error becomes its response. *)
Definition run_authenticated {A} (auth_header : option string) (jwt_secret : string)
    (now : Z) (handler : string -> ApiError + A) : response + A :=
  match Auth.bearer_auth auth_header jwt_secret now with
  | inl resp => inl resp
  | inr email =>
      match handler email with
      | inl e => inl (api_error_into_response e)
      | inr v => inr v
      end
  end.

End Handlers.

(* ------------------------------------------------------------------ *)
(** ** Paginated listings (poses.rs, posts.rs, portfolio.rs and the
       [LIMIT $n OFFSET $m] queries of their repositories) *)

Module Pagination.

(** [PaginationQuery { page: Option<u32>, limit: Option<u32> }] *)
Record PaginationQuery := mk_query { page : option Z; limit : option Z }.

Definition u32_max : Z := 2^32 - 1.
Definition wrap_u32 (z : Z) : Z := z mod 2^32.

(** [q.page.unwrap_or(0)] and [q.limit.unwrap_or(20).min(100)], the two
    lines every paginated handler starts with. *)
Definition page_of (q : PaginationQuery) : Z := default 0 (page q).
Definition limit_of (q : PaginationQuery) : Z := Z.min (default 20 (limit q)) 100.

(** [get_paginated(page, limit)]: [offset = page.saturating_mul(limit)],
    then [ORDER BY ... LIMIT limit OFFSET offset] over the ordered rows. *)
Definition get_paginated {A} (rows : list A) (page limit : Z) : list A :=
  let offset := Z.min (page * limit) u32_max in
  List.firstn (Z.to_nat limit) (List.skipn (Z.to_nat offset) rows).

(** [total_pages] of posts.rs and portfolio.rs, in [u32] arithmetic;
    [None] is the division-by-zero panic. *)
Definition total_pages (count limit : Z) : option Z :=
  if count =? 0 then Some 0
  else if limit =? 0 then None
  else Some (wrap_u32 (wrap_u32 (wrap_u32 count + limit) - 1) / limit).

(** [list_poses_paginated] *)
Definition list_poses_paginated {A} (poses : list A) (q : PaginationQuery) : list A :=
  let page := page_of q in
  let limit := limit_of q in
  get_paginated poses page limit.

(** [get_poses_by_hashtag_paginated]: the rows are the poses tagged
    with [hashtag_id]. *)
Definition get_poses_by_hashtag_paginated {A} (poses_of : string -> list A)
    (hashtag_id : string) (q : PaginationQuery) : list A :=
  let page := page_of q in
  let limit := limit_of q in
  get_paginated (poses_of hashtag_id) page limit.

Record Paginated (A : Type) := mk_paginated
  { items : list A; count : Z; pg_page : Z; pg_limit : Z; pg_total_pages : Z }.
Arguments mk_paginated {A}.
Arguments items {A}.
Arguments pg_page {A}.
Arguments pg_limit {A}.
Arguments count {A}.
Arguments pg_total_pages {A}.

(** [list_posts_paginated]: items, total count and page figures. *)
Definition list_posts_paginated {A} (posts : list A) (q : PaginationQuery)
  : option (Paginated A) :=
  let page := page_of q in
  let limit := limit_of q in
  let its := get_paginated posts page limit in
  let count := Z.of_nat (List.length posts) in
  match total_pages count limit with
  | None => None
  | Some tp => Some (mk_paginated its count page limit tp)
  end.

(** [get_portfolio_images]: the images of [category_id]. *)
Definition get_portfolio_images {A} (images_of : string -> list A)
    (category_id : string) (q : PaginationQuery) : option (Paginated A) :=
  let page := page_of q in
  let limit := limit_of q in
  let its := get_paginated (images_of category_id) page limit in
  let count := Z.of_nat (List.length (images_of category_id)) in
  match total_pages count limit with
  | None => None
  | Some tp => Some (mk_paginated its count page limit tp)
  end.

End Pagination.

(* ------------------------------------------------------------------ *)
(** ** Use cases over the repository traits (src/application) and the
       SQL of their implementations (src/infrastructure/repositories) *)

Module UseCases.

(** The methods of [HashtagsRepository] the pose use cases call, over a
    store [S]; [get_hashtags_by_pose] yields the ids of its rows, the
    only field the callers read. *)
Record HashtagsRepository (S : Type) := mk_hashtags_repository
  { get_hashtags_by_pose : string -> S -> DomainError + list string;
    add_hashtag_to_pose : string -> string -> S -> S * (DomainError + unit);
    remove_hashtag_from_pose : string -> string -> S -> S * (DomainError + unit);
    remove_all_hashtags_from_pose : string -> S -> S * (DomainError + unit) }.
Arguments get_hashtags_by_pose {S}.
Arguments add_hashtag_to_pose {S}.
Arguments remove_hashtag_from_pose {S}.
Arguments remove_all_hashtags_from_pose {S}.

(** [HashSet::contains] *)
Definition mem (x : string) (l : list string) : bool := existsb (String.eqb x) l.

(** [UpdatePoseHashtagsUseCase::execute]. [iter l] is the iteration
    order of the [HashSet] collected from [l] (unspecified by Rust; the
    properties below hold for every order with the same members). The
    results of the adds and removes are dropped ([let _ = ...]). *)
Definition update_pose_hashtags {S} (repo : HashtagsRepository S)
    (iter : list string -> list string) (pose_id : string) (hashtag_ids : list string)
    (st : S) : S * (DomainError + unit) :=
  match get_hashtags_by_pose repo pose_id st with
  | inl e => (st, inl e)
  | inr current =>
      let current_ids := iter current in
      let new_ids := iter hashtag_ids in
      let st1 := List.fold_left
                   (fun s id => if mem id current_ids then s
                                else fst (add_hashtag_to_pose repo pose_id id s))
                   new_ids st in
      let st2 := List.fold_left
                   (fun s id => if mem id new_ids then s
                                else fst (remove_hashtag_from_pose repo pose_id id s))
                   current_ids st1 in
      (st2, inr tt)
  end.

(** [DeletePoseUseCase::execute]: the hashtag links are removed first,
    their error dropped; the result is the one of [PosesRepository::delete]. *)
Definition delete_pose {S} (hrepo : HashtagsRepository S)
    (poses_delete : string -> S -> S * (DomainError + unit)) (id : string) (st : S)
  : S * (DomainError + unit) :=
  let st1 := fst (remove_all_hashtags_from_pose hrepo id st) in
  poses_delete id st1.

(** The [FavoritesRepository] trait; [get_favorite_poses] yields the
    pose ids of its rows. *)
Record FavoritesRepository (S : Type) := mk_favorites_repository
  { is_pose_favorite : string -> string -> S -> DomainError + bool;
    add_pose_to_favorites : string -> string -> S -> S * (DomainError + unit);
    remove_pose_from_favorites : string -> string -> S -> S * (DomainError + unit);
    remove_poses_from_favorites : string -> list string -> S -> S * (DomainError + unit);
    get_favorite_poses : string -> S -> DomainError + list string }.
Arguments is_pose_favorite {S}.
Arguments add_pose_to_favorites {S}.
Arguments remove_pose_from_favorites {S}.
Arguments remove_poses_from_favorites {S}.
Arguments get_favorite_poses {S}.

(** [TogglePoseFavoriteUseCase::execute] *)
Definition toggle_pose_favorite {S} (repo : FavoritesRepository S)
    (user_id pose_id : string) (st : S) : S * (DomainError + bool) :=
  match is_pose_favorite repo user_id pose_id st with
  | inl e => (st, inl e)
  | inr true =>
      let '(st1, r) := remove_pose_from_favorites repo user_id pose_id st in
      match r with inl e => (st1, inl e) | inr _ => (st1, inr false) end
  | inr false =>
      let '(st1, r) := add_pose_to_favorites repo user_id pose_id st in
      match r with inl e => (st1, inl e) | inr _ => (st1, inr true) end
  end.

Record Sesion := mk_sesion { sesion_id : string; sesion_name : string }.

(** The [SesionesRepository] methods the favourites use cases call. *)
Record SesionesRepository (S : Type) := mk_sesiones_repository
  { create_sesion : string -> S -> S * (DomainError + Sesion);
    add_poses_to_sesion : string -> list string -> S -> S * (DomainError + unit) }.
Arguments create_sesion {S}.
Arguments add_poses_to_sesion {S}.

Definition is_nil {A} (l : list A) : bool := match l with [] => true | _ => false end.

(** [AddFavoritesToSesionUseCase::execute] *)
Definition add_favorites_to_sesion {S} (srepo : SesionesRepository S)
    (frepo : FavoritesRepository S) (user_id sesion_id : string) (st : S)
  : S * (DomainError + unit) :=
  match get_favorite_poses frepo user_id st with
  | inl e => (st, inl e)
  | inr pose_ids =>
      if is_nil pose_ids then (st, inr tt)
      else
        let '(st1, r) := add_poses_to_sesion srepo sesion_id pose_ids st in
        match r with
        | inl e => (st1, inl e)
        | inr _ => remove_poses_from_favorites frepo user_id pose_ids st1
        end
  end.

(** [CreateSesionFromFavoritesUseCase::execute] *)
Definition create_sesion_from_favorites {S} (srepo : SesionesRepository S)
    (frepo : FavoritesRepository S) (user_id name : string) (st : S)
  : S * (DomainError + Sesion) :=
  let '(st1, r) := create_sesion srepo name st in
  match r with
  | inl e => (st1, inl e)
  | inr sesion =>
      match get_favorite_poses frepo user_id st1 with
      | inl e => (st1, inl e)
      | inr pose_ids =>
          if is_nil pose_ids then (st1, inr sesion)
          else
            let '(st2, r2) := add_poses_to_sesion srepo (sesion_id sesion) pose_ids st1 in
            match r2 with
            | inl e => (st2, inl e)
            | inr _ =>
                let '(st3, r3) := remove_poses_from_favorites frepo user_id pose_ids st2 in
                match r3 with
                | inl e => (st3, inl e)
                | inr _ => (st3, inr sesion)
                end
            end
      end
  end.

(** *** The tables the repositories' SQL reads and writes, with every
    statement succeeding. *)
Record Db := mk_db
  { db_hashtags : gset string;                 (* hashtags.id *)
    db_poses : gset string;                    (* poses.id *)
    hashtag_image : gset (string * string);    (* (pose_id, hashtag_id) *)
    favoritos : gset (string * string);        (* (user_id, pose_id) *)
    sesiones : gmap string string;             (* id -> name *)
    sesion_image : gset (string * string) }.   (* (sesion_id, pose_id) *)

Definition set_poses (db : Db) (x : gset string) : Db :=
  mk_db (db_hashtags db) x (hashtag_image db) (favoritos db) (sesiones db) (sesion_image db).
Definition set_hashtag_image (db : Db) (x : gset (string * string)) : Db :=
  mk_db (db_hashtags db) (db_poses db) x (favoritos db) (sesiones db) (sesion_image db).
Definition set_favoritos (db : Db) (x : gset (string * string)) : Db :=
  mk_db (db_hashtags db) (db_poses db) (hashtag_image db) x (sesiones db) (sesion_image db).
Definition set_sesiones (db : Db) (x : gmap string string) : Db :=
  mk_db (db_hashtags db) (db_poses db) (hashtag_image db) (favoritos db) x (sesion_image db).
Definition set_sesion_image (db : Db) (x : gset (string * string)) : Db :=
  mk_db (db_hashtags db) (db_poses db) (hashtag_image db) (favoritos db) (sesiones db) x.

(** [HashtagsRepositoryImpl]: the [SELECT ... INNER JOIN hashtag_image],
    [INSERT ... ON CONFLICT DO NOTHING] and the two [DELETE]s. *)
Definition sql_hashtags_repo : HashtagsRepository Db :=
  mk_hashtags_repository Db
    (fun pose db => inr (List.map snd (elements
        (filter (fun ph : string * string => ph.1 = pose /\ ph.2 ∈ db_hashtags db)
                (hashtag_image db)))))
    (fun pose h db => (set_hashtag_image db ({[(pose, h)]} ∪ hashtag_image db), inr tt))
    (fun pose h db => (set_hashtag_image db (hashtag_image db ∖ {[(pose, h)]}), inr tt))
    (fun pose db => (set_hashtag_image db
        (filter (fun ph : string * string => ph.1 <> pose) (hashtag_image db)), inr tt)).

(** [PosesRepositoryImpl::delete] *)
Definition sql_delete_pose (id : string) (db : Db) : Db * (DomainError + unit) :=
  (set_poses db (db_poses db ∖ {[id]}), inr tt).

(** The sqlx error of [is_pose_favorite] when its row exists: the query
    [SELECT 1 ...] returns a Postgres [INT4] column, which sqlx refuses
    to decode into the [i64] of the row type [(i64,)]. *)
Definition is_pose_favorite_decode_error : string :=
  "error occurred while decoding column 0: mismatched types; Rust type `i64` (as SQL type `INT8`) is not compatible with SQL type `INT4`".

(** [FavoritesRepositoryImpl]; [get_favorite_poses] joins [poses].
    [is_pose_favorite] fetches [Option<(i64,)>]: no row gives [Ok(false)],
    an existing row fails to decode, so it never answers [Ok(true)]. *)
Definition sql_favorites_repo : FavoritesRepository Db :=
  mk_favorites_repository Db
    (fun u p db =>
       if bool_decide ((u, p) ∈ favoritos db)
       then inl (Repository is_pose_favorite_decode_error)
       else inr false)
    (fun u p db => (set_favoritos db ({[(u, p)]} ∪ favoritos db), inr tt))
    (fun u p db => (set_favoritos db (favoritos db ∖ {[(u, p)]}), inr tt))
    (fun u ps db =>
       if is_nil ps then (db, inr tt)
       else (set_favoritos db
               (filter (fun up : string * string => ~ (up.1 = u /\ up.2 ∈ ps)) (favoritos db)),
             inr tt))
    (fun u db => inr (List.map snd (elements
        (filter (fun up : string * string => up.1 = u /\ up.2 ∈ db_poses db)
                (favoritos db))))).

(** [SesionesRepositoryImpl]; [new_id] is the id the [INSERT] returns. *)
Definition sql_sesiones_repo (new_id : string) : SesionesRepository Db :=
  mk_sesiones_repository Db
    (fun name db => (set_sesiones db (<[new_id := name]> (sesiones db)),
                     inr (mk_sesion new_id name)))
    (fun s ps db =>
       if is_nil ps then (db, inr tt)
       else (List.fold_left (fun d p => set_sesion_image d ({[(s, p)]} ∪ sesion_image d))
               ps db, inr tt)).

End UseCases.

(* ------------------------------------------------------------------ *)
(** ** The decoder contract of the specification (section 4.5), in two
       readings, to be compared with [Image.decode_image_base64]. *)

Module DecoderSpec.

(** Steps 3 and 4: decode the body; a decode error carries its reason,
    an empty result is rejected. *)
Definition body_outcome (body ext : string) : ApiError + (list Byte.byte * string) :=
  match Image.b64_decode body with
  | inl e => inl (ApiError_ (Validation ("base64 inválido: " ++ Image.decode_error_to_string e)))
  | inr [] => inl (ApiError_ (Validation "imagen vacía"))
  | inr bytes => inr (bytes, ext)
  end.

Definition missing_delimiter : ApiError :=
  ApiError_ (Validation "formato base64 inválido: se esperaba data:image/...;base64,...").

(** The reading of the claim: the mime part itself must start with
    ["image/png"], ignoring case. *)
Definition ext_as_claimed (mime : string) : string :=
  if Str.starts_with (Str.to_lowercase mime) "image/png" then "png" else "jpg".

(** The amended reading: the mime part is trimmed first. *)
Definition ext_as_amended (mime : string) : string :=
  if Str.starts_with (Str.to_lowercase (Str.trim mime)) "image/png" then "png" else "jpg".

Definition decode_with (ext_of : string -> string) (payload : string)
  : ApiError + (list Byte.byte * string) :=
  match Str.strip_prefix "data:" payload with
  | Some rest =>
      match Str.split_once ";base64," rest with
      | None => inl missing_delimiter
      | Some (mime, body) => body_outcome (Str.trim body) (ext_of mime)
      end
  | None => body_outcome (Str.trim payload) "jpg"
  end.

Definition decode_as_claimed := decode_with ext_as_claimed.
Definition decode_as_amended := decode_with ext_as_amended.

End DecoderSpec.

(* ================================================================== *)
(** * Properties *)

(* ------------------------------------------------------------------ *)
(** ** String helpers *)

Module StrFacts.

Lemma append_assoc (a b c : string) : (a ++ b) ++ c = a ++ (b ++ c).
Proof. induction a as [|x a IH]; simpl; [reflexivity | now rewrite IH]. Qed.

Lemma strip_prefix_app (p s : string) : Str.strip_prefix p (p ++ s) = Some s.
Proof.
  induction p as [|c p IH]; simpl; [reflexivity|].
  now rewrite Ascii.eqb_refl.
Qed.

(** Splitting at a one-character separator absent from the prefix. *)
Lemma split_once_app (c : ascii) (x y : string) :
  Forall (fun ch => Ascii.eqb c ch = false) (list_ascii_of_string x) ->
  Str.split_once (String c EmptyString) (x ++ String c y) = Some (x, y).
Proof.
  induction x as [|d x IH]; intros Hx; simpl.
  - now rewrite Ascii.eqb_refl.
  - inversion Hx as [|? ? Hd Hrest]; subst.
    rewrite Hd. simpl in IH. now rewrite (IH Hrest).
Qed.

End StrFacts.

(* ------------------------------------------------------------------ *)
(** ** The token codec *)

Module JwtFacts.
Import Jwt.

Lemma hex_enc_char_dec (a : ascii) (s : string) :
  hex_dec (hex_enc_char a ++ s) = option_map (String a) (hex_dec s).
Proof.
  destruct a as [[] [] [] [] [] [] [] []]; cbn;
    destruct (hex_dec s); reflexivity.
Qed.

Lemma hex_roundtrip (s : string) : hex_dec (hex_enc s) = Some s.
Proof.
  induction s as [|a s IH]; cbn [hex_enc]; [reflexivity|].
  now rewrite hex_enc_char_dec, IH.
Qed.

Lemma hex_digit_sep (c : ascii) (n : nat) :
  (c = "."%char \/ c = ":"%char) -> Ascii.eqb c (hex_digit n) = false.
Proof.
  intros [-> | ->];
    (do 16 (destruct n as [|n]; [reflexivity|])); reflexivity.
Qed.

Lemma hex_enc_no_sep (c : ascii) (s : string) :
  (c = "."%char \/ c = ":"%char) ->
  Forall (fun ch => Ascii.eqb c ch = false) (list_ascii_of_string (hex_enc s)).
Proof.
  intros Hc. induction s as [|a s IH]; simpl; [constructor|].
  constructor; [now apply hex_digit_sep|].
  constructor; [now apply hex_digit_sep|]. exact IH.
Qed.

Lemma dec_roundtrip (z : Z) : dec_to_z (z_to_dec z) = Some z.
Proof.
  unfold dec_to_z, z_to_dec. rewrite NilEmpty.isi. simpl.
  now rewrite DecimalZ.of_to.
Qed.

(** Decoding what [encode] produced with the same secret only runs the
    claim checks: the [exp] parse and the expiry test with leeway. *)
Lemma decode_encode (c : Claims) (k : string) (v : Validation) (now : Z) :
  existsb (String.eqb HS256) (algorithms v) = true ->
  decode (encode c k) k v now =
    if exp c <? 0 then inl MissingRequiredClaim
    else if exp c <? now - leeway v then inl ExpiredSignature
    else inr c.
Proof.
  intros Halg. destruct c as [s e].
  unfold encode, signing_input, payload_text, decode. cbn [sub exp].
  rewrite StrFacts.append_assoc. cbn [String.append].
  rewrite StrFacts.split_once_app by (apply hex_enc_no_sep; auto).
  rewrite StrFacts.split_once_app by (apply hex_enc_no_sep; auto).
  rewrite hex_roundtrip, Halg. simpl negb.
  rewrite String.eqb_refl. simpl negb.
  rewrite hex_roundtrip.
  cbn [String.append].
  rewrite StrFacts.split_once_app by (apply hex_enc_no_sep; auto).
  rewrite hex_roundtrip. simpl option_bind. rewrite dec_roundtrip.
  reflexivity.
Qed.

End JwtFacts.

(* ------------------------------------------------------------------ *)
(** ** The request gate on issued tokens *)

Module GateFacts.
Import Jwt Auth.

Lemma list_ascii_app (a b : string) :
  list_ascii_of_string (a ++ b) = (list_ascii_of_string a ++ list_ascii_of_string b)%list.
Proof. induction a as [|x a IH]; simpl; [reflexivity | now rewrite IH]. Qed.

Lemma hex_digit_visible (n : nat) : is_visible_ascii (hex_digit n) = true.
Proof. do 16 (destruct n as [|n]; [reflexivity|]). reflexivity. Qed.

Lemma hex_enc_visible (s : string) :
  forallb is_visible_ascii (list_ascii_of_string (hex_enc s)) = true.
Proof.
  induction s as [|a s IH]; cbn [hex_enc]; [reflexivity|].
  rewrite list_ascii_app, List.forallb_app, IH. cbn.
  now rewrite !hex_digit_visible.
Qed.

Lemma bearer_header_to_str (c : Claims) (k : string) :
  header_to_str ("Bearer " ++ encode c k) = Some ("Bearer " ++ encode c k).
Proof.
  unfold header_to_str, encode, signing_input. cbv zeta.
  rewrite !list_ascii_app, !List.forallb_app. cbn [list_ascii_of_string].
  rewrite !hex_enc_visible. reflexivity.
Qed.

Lemma wrap_i64_small (z : Z) : -2^63 <= z < 2^63 -> wrap_i64 z = z.
Proof.
  intros Hz. unfold wrap_i64.
  rewrite Z.mod_small by lia. lia.
Qed.

(** The gate on the header carrying a token issued at [now] and checked
    at [now] with the same secret. *)
Lemma gate_on_issued (s secret : string) (exp_secs now : Z) :
  from_header_and_secret (Some ("Bearer " ++ create_token s secret exp_secs now)) secret now
  = let e := wrap_i64 (now + exp_secs) in
    if e <? 0 then inl Invalid
    else if e <? now - 60 then inl Invalid
    else inr s.
Proof.
  unfold from_header_and_secret, create_token.
  rewrite bearer_header_to_str, StrFacts.strip_prefix_app.
  rewrite JwtFacts.decode_encode by reflexivity. cbn [exp sub leeway validation_default].
  destruct (wrap_i64 (now + exp_secs) <? 0); [reflexivity|].
  destruct (wrap_i64 (now + exp_secs) <? now - 60); reflexivity.
Qed.

(** Whatever the header, an accepted token had [exp >= now - 60]. *)
Lemma decode_accepts_only_unexpired (token secret : string) (now : Z) (c : Claims) :
  decode token secret validation_default now = inr c -> now - 60 <= exp c.
Proof.
  unfold decode.
  destruct (Str.split_once "." token) as [[h rest]|]; [|discriminate].
  destruct (Str.split_once "." rest) as [[p sg]|]; [|discriminate].
  destruct (hex_dec h) as [alg|]; [|discriminate].
  destruct (negb (existsb (String.eqb alg) (algorithms validation_default))); [discriminate|].
  destruct (negb _); [discriminate|].
  destruct (hex_dec p) as [pl|]; [|discriminate].
  destruct (Str.split_once ":" pl) as [[e s]|]; [|discriminate].
  destruct (option_bind _ _ dec_to_z (hex_dec e)) as [ex|]; [|discriminate].
  destruct (ex <? 0); [discriminate|].
  destruct (ex <? now - leeway validation_default) eqn:Hlt; [discriminate|].
  intros H. injection H as <-. cbn [exp]. cbn in Hlt. lia.
Qed.

(** [Missing] is the rejection of an absent header and of nothing else. *)
Lemma gate_missing_iff (h : option string) (secret : string) (now : Z) :
  from_header_and_secret h secret now = inl Missing <-> h = None.
Proof.
  destruct h as [v|]; unfold from_header_and_secret; [|split; auto].
  split; [|discriminate].
  destruct (header_to_str v); [|intros Hc; inversion Hc].
  destruct (Str.strip_prefix "Bearer " s); [|intros Hc; inversion Hc].
  destruct (decode s0 secret validation_default now); intros Hc; inversion Hc.
Qed.

End GateFacts.

(* ------------------------------------------------------------------ *)
(** ** Claims on the token codec and the request gate *)

Module AuthClaims.
Import GateFacts.

(** C2 (counterexample): verified at the second it was issued, a token
    issued with ttl 0 (expiry = now) and one issued with ttl -30 (expiry
    30 s in the past) are both accepted: [Validation::default()] has a
    60 s leeway. *)
Lemma C2_counterexample :
  Auth.from_header_and_secret
    (Some ("Bearer " ++ Jwt.create_token "a@example.com" "secret" 0 1700000000))
    "secret" 1700000000 = inr "a@example.com" /\
  Auth.from_header_and_secret
    (Some ("Bearer " ++ Jwt.create_token "a@example.com" "secret" (-30) 1700000000))
    "secret" 1700000000 = inr "a@example.com".
Proof. split; vm_compute; reflexivity. Qed.

(** C2 (amended): a verified token never has [exp < now - 60]; a token
    issued at [now] with [ttl] and verified at [now] is rejected with
    [Invalid] exactly when [ttl < -60] (given a clock past 60 s and no
    [i64] overflow of [now + ttl]). *)
Theorem C2_expiry_with_leeway (s secret token : string) (ttl now : Z) :
  60 <= now -> -2^63 <= now + ttl < 2^63 ->
  (forall c, Jwt.decode token secret Jwt.validation_default now = inr c ->
             now - 60 <= Jwt.exp c) /\
  Auth.from_header_and_secret
    (Some ("Bearer " ++ Jwt.create_token s secret ttl now)) secret now
  = if ttl <? -60 then inl Auth.Invalid else inr s.
Proof.
  intros Hnow Hrange. split.
  - intros c. apply decode_accepts_only_unexpired.
  - rewrite gate_on_issued. cbv zeta. rewrite wrap_i64_small by lia.
    destruct (Z.ltb_spec (now + ttl) 0); destruct (Z.ltb_spec (now + ttl) (now - 60));
      destruct (Z.ltb_spec ttl (-60)); try lia; reflexivity.
Qed.

Lemma C2_expiry_with_leeway_witness :
  (60 <= 1700000000 /\ -2^63 <= 1700000000 + (-61) < 2^63) /\
  Auth.from_header_and_secret
    (Some ("Bearer " ++ Jwt.create_token "a@example.com" "secret" (-61) 1700000000))
    "secret" 1700000000 = inl Auth.Invalid.
Proof.
  split; [lia|].
  pose proof (C2_expiry_with_leeway "a@example.com" "secret" "" (-61) 1700000000
                ltac:(lia) ltac:(lia)) as [_ H].
  rewrite H. reflexivity.
Defined.

(** C3 (counterexample): a header that is present but not of the form
    ["Bearer <token>"] is rejected with [Invalid], not [Missing]. *)
Lemma C3_counterexample :
  Str.strip_prefix "Bearer " "Basic dXNlcjpwYXNz" = None /\
  Auth.from_header_and_secret (Some "Basic dXNlcjpwYXNz") "secret" 1700000000
  = inl Auth.Invalid.
Proof. split; reflexivity. Qed.

Lemma header_to_str_some (v w : string) : Auth.header_to_str v = Some w -> w = v.
Proof. unfold Auth.header_to_str. destruct (forallb _ _); congruence. Qed.

(** C3 (amended): [Missing] exactly when the header is absent; [Invalid]
    exactly when it is present and is not visible ASCII, lacks the
    ["Bearer "] prefix, or carries a token that [decode] rejects; the
    subject of the decoded claim otherwise. *)
Theorem C3_gate_reasons (h : option string) (secret : string) (now : Z) :
  (Auth.from_header_and_secret h secret now = inl Auth.Missing <-> h = None) /\
  (Auth.from_header_and_secret h secret now = inl Auth.Invalid <->
     exists v, h = Some v /\
       (Auth.header_to_str v = None \/
        (Auth.header_to_str v = Some v /\ Str.strip_prefix "Bearer " v = None) \/
        (exists tok e, Auth.header_to_str v = Some v /\
           Str.strip_prefix "Bearer " v = Some tok /\
           Jwt.decode tok secret Jwt.validation_default now = inl e))) /\
  (forall s, Auth.from_header_and_secret h secret now = inr s <->
     exists v tok c, h = Some v /\ Auth.header_to_str v = Some v /\
       Str.strip_prefix "Bearer " v = Some tok /\
       Jwt.decode tok secret Jwt.validation_default now = inr c /\ s = Jwt.sub c).
Proof.
  destruct h as [v|]; cbn [Auth.from_header_and_secret].
  2:{ split; [split; auto|]. split; [split; [discriminate | intros (? & [=] & _)]|].
      intros s. split; [discriminate | intros (? & ? & ? & [=] & _)]. }
  destruct (Auth.header_to_str v) as [w|] eqn:Hs.
  - apply header_to_str_some in Hs as Hw. subst w.
    destruct (Str.strip_prefix "Bearer " v) as [tok|] eqn:Hp.
    + destruct (Jwt.decode tok secret Jwt.validation_default now) as [e|c] eqn:Hd.
      * split; [split; discriminate|]. split.
        -- split; [intros _; exists v; split; [reflexivity|]; right; right; eauto|auto].
        -- intros s. split; [discriminate|].
           intros (? & ? & ? & [= <-] & _ & Hp' & Hd' & _). congruence.
      * split; [split; discriminate|]. split.
        -- split; [discriminate|].
           intros (? & [= <-] & [H|[[_ H]|(? & ? & _ & H1 & H2)]]); congruence.
        -- intros s. split.
           ++ intros [= <-]. exists v, tok, c. auto.
           ++ intros (? & ? & ? & [= <-] & _ & Hp' & Hd' & ->). congruence.
    + split; [split; discriminate|]. split.
      * split; [intros _; exists v; split; [reflexivity|]; right; left; auto|auto].
      * intros s. split; [discriminate|].
        intros (? & ? & ? & [= <-] & _ & Hp' & _). congruence.
  - split; [split; discriminate|]. split.
    + split; [intros _; exists v; auto|auto].
    + intros s. split; [discriminate|].
      intros (? & ? & ? & [= <-] & Hs' & _). congruence.
Qed.

(** C4 (counterexample): the rejection of a request without header and
    the rejection of a request with a bad token share the status 401
    but carry different bodies. *)
Lemma C4_counterexample :
  Auth.bearer_auth None "secret" 1700000000
    = inl (mk_response 401 (error_body "Authorization header missing")) /\
  Auth.bearer_auth (Some "Bearer not-a-token") "secret" 1700000000
    = inl (mk_response 401 (error_body "Invalid or expired token")) /\
  error_body "Authorization header missing" <> error_body "Invalid or expired token".
Proof. split; [reflexivity|]. split; [reflexivity|]. discriminate. Qed.

(** C4 (amended): every rejection has status 401; a request without an
    [Authorization] header is rejected with the body
    [{"error": "Authorization header missing"}], and every rejection of a
    request that has one (malformed, non-Bearer, badly signed or expired
    token) has the body [{"error": "Invalid or expired token"}]; so all
    rejections of present headers are the same response, and their body
    differs from the one for an absent header. *)
Theorem C4_rejection_responses (h1 h2 : option string) (secret : string) (now : Z)
    (r1 r2 : response) :
  Auth.bearer_auth h1 secret now = inl r1 ->
  Auth.bearer_auth h2 secret now = inl r2 ->
  status r1 = 401 /\ status r2 = 401 /\
  (h1 <> None -> h2 <> None -> r1 = r2) /\
  (h1 = None -> h2 <> None -> body r1 <> body r2) /\
  Auth.bearer_auth None secret now
    = inl (mk_response 401 (error_body "Authorization header missing")) /\
  (forall h r, Auth.bearer_auth h secret now = inl r ->
     r = mk_response 401 (error_body
           (match h with
            | None => "Authorization header missing"
            | Some _ => "Invalid or expired token"
            end))).
Proof.
  assert (Hm : forall h e, Auth.from_header_and_secret h secret now = inl e ->
                 (e = Auth.Missing <-> h = None)).
  { intros h e He. rewrite <- (gate_missing_iff h secret now), He.
    split; [intros ->; reflexivity | intros [= ->]; reflexivity]. }
  assert (Hb : forall h r, Auth.bearer_auth h secret now = inl r ->
            r = mk_response 401 (error_body
                  (match h with
                   | None => "Authorization header missing"
                   | Some _ => "Invalid or expired token"
                   end))).
  { intros h r. unfold Auth.bearer_auth.
    destruct (Auth.from_header_and_secret h secret now) as [e|] eqn:He; [|discriminate].
    intros [= <-]. pose proof (Hm _ _ He) as Hme.
    destruct e, h as [x|]; try reflexivity.
    - exfalso. assert (Hn : Some x = None) by (apply Hme; reflexivity). discriminate.
    - exfalso. assert (Hn : Auth.Invalid = Auth.Missing) by (apply Hme; reflexivity).
      discriminate. }
  intros E1 E2. pose proof (Hb _ _ E1) as R1. pose proof (Hb _ _ E2) as R2.
  split; [subst r1; destruct h1; reflexivity|].
  split; [subst r2; destruct h2; reflexivity|].
  split; [|split; [|split; [reflexivity | exact Hb]]].
  - intros Hn1 Hn2. subst r1 r2.
    destruct h1; [|contradiction]. destruct h2; [|contradiction]. reflexivity.
  - intros -> Hn2. subst r1 r2. destruct h2; [|contradiction]. discriminate.
Qed.

Lemma C4_rejection_responses_witness :
  Auth.bearer_auth None "secret" 1700000000
    = inl (mk_response 401 (error_body "Authorization header missing")) /\
  Auth.bearer_auth (Some "Bearer not-a-token") "secret" 1700000000
    = inl (mk_response 401 (error_body "Invalid or expired token")) /\
  error_body "Authorization header missing" <> error_body "Invalid or expired token".
Proof.
  pose proof (C4_rejection_responses None (Some "Bearer not-a-token") "secret" 1700000000
                (mk_response 401 (error_body "Authorization header missing"))
                (mk_response 401 (error_body "Invalid or expired token"))
                eq_refl eq_refl) as (_ & _ & _ & Hd & HN & _).
  split; [exact HN|]. split; [reflexivity|].
  apply (Hd eq_refl). discriminate.
Defined.

(** C9: for every subject and every positive ttl whose expiry
    [now + ttl] is a signed 64-bit second count (the spec's valid ttl;
    beyond it the [i64] sum in [create_token] panics in a debug build),
    the token issued at [now] decodes at [now] to [{sub, exp = now + ttl}]
    and passes the gate with its subject; [login], the only caller of
    [create_token], issues its tokens with a ttl of [24 * 3600]. *)
Theorem C9_issue_verify_roundtrip (s secret : string) (ttl now : Z) :
  0 <= now -> 0 < ttl -> now + ttl < 2^63 ->
  Jwt.decode (Jwt.create_token s secret ttl now) secret Jwt.validation_default now
    = inr (Jwt.mk_claims s (now + ttl)) /\
  Auth.from_header_and_secret
    (Some ("Bearer " ++ Jwt.create_token s secret ttl now)) secret now = inr s /\
  (forall get_by_email bcrypt_verify body r,
     Auth.login get_by_email bcrypt_verify secret now body = inr r ->
     exists e, Auth.token r = Jwt.create_token e secret (24 * 3600) now).
Proof.
  intros Hnow Httl Hmax. split; [|split].
  - unfold Jwt.create_token. rewrite wrap_i64_small by lia.
    rewrite JwtFacts.decode_encode by reflexivity. cbn [Jwt.exp Jwt.leeway Jwt.validation_default].
    destruct (Z.ltb_spec (now + ttl) 0); [lia|].
    destruct (Z.ltb_spec (now + ttl) (now - 60)); [lia|]. reflexivity.
  - rewrite gate_on_issued. cbv zeta. rewrite wrap_i64_small by lia.
    destruct (Z.ltb_spec (now + ttl) 0); [lia|].
    destruct (Z.ltb_spec (now + ttl) (now - 60)); [lia|]. reflexivity.
  - intros get_by_email bcrypt_verify body r. unfold Auth.login.
    destruct (get_by_email _) as [|[[uid uemail uhash]|]]; try discriminate.
    destruct (negb _); [discriminate|].
    intros [= <-]. exists uemail. reflexivity.
Qed.

Lemma C9_issue_verify_roundtrip_witness :
  (0 <= 1700000000 /\ 0 < 3600 /\ 1700000000 + 3600 < 2^63) /\
  Jwt.decode (Jwt.create_token "a@example.com" "secret" 3600 1700000000) "secret"
    Jwt.validation_default 1700000000 = inr (Jwt.mk_claims "a@example.com" 1700003600).
Proof.
  split; [lia|].
  pose proof (C9_issue_verify_roundtrip "a@example.com" "secret" 3600 1700000000
                ltac:(lia) ltac:(lia) ltac:(lia)) as [H _].
  exact H.
Defined.

End AuthClaims.

(* ------------------------------------------------------------------ *)
(** ** Image decoding, storing and serving *)

Module ImageClaims.
Import Image.

(** C6 (counterexample): for ["data: image/png;base64,AA=="] the part
    before the delimiter, [" image/png"], does not start with
    ["image/png"], yet the decoder picks [png]: it trims the mime part. *)
Lemma C6_counterexample :
  Str.split_once ";base64," " image/png;base64,AA==" = Some (" image/png", "AA==") /\
  Str.starts_with (Str.to_lowercase " image/png") "image/png" = false /\
  DecoderSpec.decode_as_claimed "data: image/png;base64,AA==" = inr ([Byte.x00], "jpg") /\
  decode_image_base64 "data: image/png;base64,AA==" = inr ([Byte.x00], "png").
Proof. split; [|split; [|split]]; vm_compute; reflexivity. Qed.

(** C6 (amended): the decoder is the algorithm of section 4.5 with the
    mime part trimmed before its case-insensitive ["image/png"] test. *)
Theorem C6_decoder_algorithm (payload : string) :
  decode_image_base64 payload = DecoderSpec.decode_as_amended payload.
Proof.
  unfold decode_image_base64, DecoderSpec.decode_as_amended, DecoderSpec.decode_with,
    DecoderSpec.body_outcome, DecoderSpec.ext_as_amended.
  destruct (Str.strip_prefix "data:" payload) as [rest|].
  - destruct (Str.split_once ";base64," rest) as [[mime b64]|]; [|reflexivity].
    destruct (b64_decode _) as [e|[|b bs]]; reflexivity.
  - destruct (b64_decode _) as [e|[|b bs]]; reflexivity.
Qed.

Lemma append_cancel_l (a x y : string) : a ++ x = a ++ y -> x = y.
Proof.
  induction a as [|c a IH]; simpl; [auto|]. intros H. injection H. exact IH.
Qed.

Lemma image_path_ext_inj (dir id e1 e2 : string) :
  image_path dir id e1 = image_path dir id e2 -> e1 = e2.
Proof.
  unfold image_path, path_join.
  destruct (String.eqb _ "/"); intros H; apply append_cancel_l in H;
    [|injection H as H]; apply append_cancel_l in H; injection H as H; exact H.
Qed.

Lemma png_ne_jpg (dir id : string) : image_path dir id "png" <> image_path dir id "jpg".
Proof. intros H. apply image_path_ext_inj in H. discriminate. Qed.

(** C5 (counterexample): after storing [01] as png and then [02] as jpg
    for the same owner, the png file is still there and is what is
    served, as [image/png]. *)
Lemma C5_counterexample :
  get_pose_image "uploads/poses" "p1"
    (store "uploads/poses" "p1" [Byte.x02] "jpg"
       (store "uploads/poses" "p1" [Byte.x01] "png" ∅))
  = inr ([Byte.x01], "image/png").
Proof. vm_compute. reflexivity. Qed.

(** C5 (amended): serving after a png store returns those bytes as
    [image/png]; after a second store as jpg both files exist and the
    png, probed first, is still served; the jpg bytes are served as
    [image/jpeg] when no png file exists for the owner. *)
Theorem C5_store_serve (dir id : string) (b1 b2 : list Byte.byte) (st : fs) :
  get_pose_image dir id (store dir id b1 "png" st) = inr (b1, "image/png") /\
  store dir id b2 "jpg" (store dir id b1 "png" st) !! image_path dir id "png" = Some b1 /\
  store dir id b2 "jpg" (store dir id b1 "png" st) !! image_path dir id "jpg" = Some b2 /\
  get_pose_image dir id (store dir id b2 "jpg" (store dir id b1 "png" st))
    = inr (b1, "image/png") /\
  (st !! image_path dir id "png" = None ->
   get_pose_image dir id (store dir id b2 "jpg" st) = inr (b2, "image/jpeg")).
Proof.
  pose proof (png_ne_jpg dir id) as Hne.
  unfold get_pose_image, store, fs_write. cbn [probe].
  split; [|split; [|split; [|split]]].
  - now rewrite lookup_insert_eq.
  - rewrite lookup_insert_ne by congruence. now rewrite lookup_insert_eq.
  - now rewrite lookup_insert_eq.
  - rewrite lookup_insert_ne by congruence. now rewrite lookup_insert_eq.
  - intros Hnone. rewrite lookup_insert_ne by congruence. rewrite Hnone.
    now rewrite lookup_insert_eq.
Qed.

Lemma C5_store_serve_witness :
  ((∅ : fs) !! image_path "uploads/poses" "p1" "png" = None) /\
  get_pose_image "uploads/poses" "p1" (store "uploads/poses" "p1" [Byte.x02] "jpg" ∅)
    = inr ([Byte.x02], "image/jpeg").
Proof.
  split; [reflexivity|].
  pose proof (C5_store_serve "uploads/poses" "p1" [Byte.x01] [Byte.x02] ∅)
    as (_ & _ & _ & _ & H).
  apply H. reflexivity.
Defined.

End ImageClaims.

(* ------------------------------------------------------------------ *)
(** ** Create-with-image handlers *)

Module HandlerClaims.
Import Image Handlers.

Lemma remove_all_exts_gone (dir id ext : string) (st : fs) :
  In ext ["png"; "jpg"; "jpeg"] -> remove_all_exts dir id st !! image_path dir id ext = None.
Proof.
  unfold remove_all_exts, fs_remove. cbn [List.fold_left].
  intros Hin. rewrite !lookup_delete_None.
  destruct Hin as [<-|[<-|[<-|[]]]]; tauto.
Qed.

(** C1 (code bug): when the image was written and the insert then fails,
    [create_pose] returns the insert error and leaves the written file
    [{dir}/{id}.{ext}] in place, whereas its sibling [add_portfolio_image]
    removes the files of every recognised extension for that id before
    returning the same error. Instance: dir ["uploads/poses"], id ["p1"],
    payload ["AA=="], an insert failing with [Repository "duplicate key"]:
    the file ["uploads/poses/p1.jpg"] still holds [00]. *)
Theorem C1_create_pose_keeps_file
    (dir id image e_msg : string) (bytes : list Byte.byte) (ext : string) (st : fs)
    (create_pose_row : string -> string -> DomainError + Pose)
    (create_image_row : string -> string -> string -> DomainError + PortfolioImage)
    (category_id : string) (e : DomainError) :
  Str.is_empty (Str.trim image) = false ->
  decode_image_base64 image = inr (bytes, ext) ->
  create_pose_row id ("/api/poses/" ++ id ++ "/image") = inl e ->
  create_image_row id category_id ("/api/portfolio/images/" ++ id ++ "/image") = inl e ->
  (fst (create_pose dir id create_pose_row image st) !! image_path dir id ext = Some bytes /\
   snd (create_pose dir id create_pose_row image st) = inl (ApiError_ e)) /\
  ((forall x, In x ["png"; "jpg"; "jpeg"] ->
     fst (add_portfolio_image dir id category_id create_image_row image st)
       !! image_path dir id x = None) /\
   snd (add_portfolio_image dir id category_id create_image_row image st)
     = inl (ApiError_ e)) /\
  (create_pose "uploads/poses" "p1" (fun _ _ => inl (Repository e_msg)) "AA==" ∅
   = (<["uploads/poses/p1.jpg" := [Byte.x00]]> ∅, inl (ApiError_ (Repository e_msg)))).
Proof.
  intros Hne Hdec Hpose Himg.
  unfold create_pose, add_portfolio_image, save_pose_image_base64,
    save_portfolio_image_base64, save_image_base64.
  rewrite Hne, Hdec, Hpose, Himg. cbn [fst snd].
  split; [split; [apply lookup_insert_eq | reflexivity]|].
  split; [split; [intros x Hx; apply remove_all_exts_gone; exact Hx | reflexivity]|].
  reflexivity.
Qed.

Lemma C1_create_pose_keeps_file_witness :
  fst (create_pose "uploads/poses" "p1" (fun _ _ => inl (Repository "duplicate key")) "AA==" ∅)
    !! image_path "uploads/poses" "p1" "jpg" = Some [Byte.x00].
Proof.
  refine (proj1 (proj1 (C1_create_pose_keeps_file "uploads/poses" "p1" "AA==" "duplicate key"
    [Byte.x00] "jpg" ∅ (fun _ _ => inl (Repository "duplicate key"))
    (fun _ _ _ => inl (Repository "duplicate key")) "c1" (Repository "duplicate key")
    _ _ _ _))); vm_compute; reflexivity.
Defined.

End HandlerClaims.

(* ------------------------------------------------------------------ *)
(** ** Identity resolution and login *)

Module AccountClaims.
Import Handlers.

(** A token issued with a positive validity decodes at issuance to its
    own claims. *)
Lemma issued_token_decodes (s secret : string) (ttl now : Z) :
  0 <= now -> 0 < ttl -> now + ttl < 2^63 ->
  Jwt.decode (Jwt.create_token s secret ttl now) secret Jwt.validation_default now
    = inr (Jwt.mk_claims s (now + ttl)).
Proof.
  intros Hnow Httl Hmax.
  unfold Jwt.create_token. rewrite GateFacts.wrap_i64_small by lia.
  rewrite JwtFacts.decode_encode by reflexivity.
  cbn [Jwt.exp Jwt.leeway Jwt.validation_default].
  destruct (Z.ltb_spec (now + ttl) 0); [lia|].
  destruct (Z.ltb_spec (now + ttl) (now - 60)); [lia|]. reflexivity.
Qed.

(** C7 (counterexample): [create_post] looks the caller up itself and,
    when no user matches, still inserts the post, with no author. *)
Lemma C7_counterexample :
  snd (create_post "/srv" "uploads/posts" "post-1" "ghost@example.com"
         (Auth.table_get_by_email [])
         (fun id d u uid t => inr (mk_post id d u uid t))
         (mk_create_post_request None "AA==" "theme-1") ∅)
  = inr (mk_post "post-1" None (Some "/api/posts/post-1/image") None "theme-1").
Proof. vm_compute. reflexivity. Qed.

(** C7 (amended): [user_id_from_auth] asks the lookup collaborator; no
    match is [NotFound "Usuario no encontrado"], a 404 response, while a
    failing gate is a 401 response before any handler runs; the
    favourites handlers resolve the caller this way, but post creation
    does not: with no matching user the post is inserted with no
    author. *)
Theorem C7_identity_resolution (get_by_email : Auth.get_by_email_fn) (email : string)
    (h : option string) (secret : string) (now : Z)
    (favorites_of : string -> DomainError + list Pose) :
  (get_by_email email = inr None ->
     Auth.user_id_from_auth get_by_email email
       = inl (ApiError_ (NotFound "Usuario no encontrado")) /\
     api_error_into_response (ApiError_ (NotFound "Usuario no encontrado"))
       = mk_response NOT_FOUND (error_body "not found: Usuario no encontrado")) /\
  (forall u, get_by_email email = inr (Some u) ->
     Auth.user_id_from_auth get_by_email email = inr (Auth.id u)) /\
  (forall e, get_by_email email = inl e ->
     Auth.user_id_from_auth get_by_email email = inl (ApiError_ e)) /\
  (forall ae, Auth.from_header_and_secret h secret now = inl ae ->
     exists r, run_authenticated h secret now (get_favorite_poses get_by_email favorites_of)
                 = inl r /\ status r = UNAUTHORIZED) /\
  (Auth.from_header_and_secret h secret now = inr email -> get_by_email email = inr None ->
     run_authenticated h secret now (get_favorite_poses get_by_email favorites_of)
       = inl (mk_response NOT_FOUND (error_body "not found: Usuario no encontrado"))) /\
  (forall cwd dir id body create_with_id st bytes ext,
     get_by_email email = inr None ->
     Str.is_empty (Str.trim (cp_image_base64 body)) = false ->
     Str.is_empty (Str.trim (cp_theme_of_the_day_id body)) = false ->
     Image.decode_image_base64 (cp_image_base64 body) = inr (bytes, ext) ->
     snd (create_post cwd dir id email get_by_email create_with_id body st)
     = match create_with_id id (cp_description body) (Some ("/api/posts/" ++ id ++ "/image"))
               None (Str.trim (cp_theme_of_the_day_id body)) with
       | inl e => inl (ApiError_ e)
       | inr p => inr p
       end).
Proof.
  split; [|split; [|split; [|split; [|split]]]].
  - intros H. unfold Auth.user_id_from_auth. rewrite H. split; reflexivity.
  - intros u H. unfold Auth.user_id_from_auth. rewrite H. reflexivity.
  - intros e H. unfold Auth.user_id_from_auth. rewrite H. reflexivity.
  - intros ae H. unfold run_authenticated, Auth.bearer_auth. rewrite H.
    eexists; split; [reflexivity|]. destruct ae; reflexivity.
  - intros Hg Hn. unfold run_authenticated, Auth.bearer_auth, get_favorite_poses,
      Auth.user_id_from_auth.
    rewrite Hg, Hn. reflexivity.
  - intros cwd dir id body create_with_id st bytes ext Hn Hi Ht Hd.
    unfold create_post, save_post_image_base64, Image.save_image_base64.
    rewrite Hi, Ht, Hn, Hd. cbn [option_map snd].
    destruct (create_with_id _ _ _ _ _); reflexivity.
Qed.

Lemma C7_identity_resolution_witness :
  Auth.table_get_by_email [] "ghost@example.com" = inr None /\
  Image.decode_image_base64 "AA==" = inr ([Byte.x00], "jpg") /\
  snd (create_post "/srv" "uploads/posts" "post-1" "ghost@example.com"
         (Auth.table_get_by_email []) (fun id d u uid t => inr (mk_post id d u uid t))
         (mk_create_post_request None "AA==" "theme-1") ∅)
  = inr (mk_post "post-1" None (Some "/api/posts/post-1/image") None "theme-1").
Proof.
  split; [reflexivity|]. split; [vm_compute; reflexivity|].
  pose proof (C7_identity_resolution (Auth.table_get_by_email []) "ghost@example.com"
                None "secret" 0 (fun _ => inr [])) as (_ & _ & _ & _ & _ & H).
  apply (H "/srv" "uploads/posts" "post-1" (mk_create_post_request None "AA==" "theme-1")
           (fun id d u uid t => inr (mk_post id d u uid t)) ∅ [Byte.x00] "jpg");
    vm_compute; reflexivity.
Defined.

(** C8: a matching user whose password verifies gets a [Bearer] token
    whose claims decode (at issuance) to [sub] = the stored email of that
    user and [exp] = now + 24 h; an unknown email, a password that does
    not verify, or a hash bcrypt cannot parse, is a 401 without token; a
    failing lookup is a 500. Looked up in the [usuarios] table, the
    stored email is the trimmed request email. *)
Theorem C8_login_outcomes (get_by_email : Auth.get_by_email_fn)
    (bcrypt_verify : Auth.bcrypt_verify_fn) (secret : string) (now : Z)
    (body : Auth.LoginRequest) :
  0 <= now -> now + 24 * 3600 < 2^63 ->
  (forall u, get_by_email (Str.trim (Auth.req_email body)) = inr (Some u) ->
     bcrypt_verify (Auth.req_password body) (Auth.password_hash u) = inr true ->
     exists r, Auth.login get_by_email bcrypt_verify secret now body = inr r /\
       Auth.token_type r = "Bearer" /\
       Jwt.decode (Auth.token r) secret Jwt.validation_default now
         = inr (Jwt.mk_claims (Auth.email u) (now + 24 * 3600))) /\
  (get_by_email (Str.trim (Auth.req_email body)) = inr None ->
     Auth.login get_by_email bcrypt_verify secret now body
       = inl (UNAUTHORIZED, error_body "Usuario o contraseña incorrectos")) /\
  (forall u, get_by_email (Str.trim (Auth.req_email body)) = inr (Some u) ->
     (bcrypt_verify (Auth.req_password body) (Auth.password_hash u) = inr false \/
      exists m, bcrypt_verify (Auth.req_password body) (Auth.password_hash u) = inl m) ->
     Auth.login get_by_email bcrypt_verify secret now body
       = inl (UNAUTHORIZED, error_body "Usuario o contraseña incorrectos")) /\
  (forall e, get_by_email (Str.trim (Auth.req_email body)) = inl e ->
     Auth.login get_by_email bcrypt_verify secret now body
       = inl (INTERNAL_SERVER_ERROR, error_body "Error al buscar usuario")) /\
  (forall rows u, Auth.table_get_by_email rows (Str.trim (Auth.req_email body)) = inr (Some u) ->
     Auth.email u = Str.trim (Auth.req_email body)).
Proof.
  intros Hnow Hmax. unfold Auth.login.
  split; [|split; [|split; [|split]]].
  - intros [uid uemail uhash] Hg Hb. rewrite Hg. cbn [Auth.password_hash Auth.email] in *.
    rewrite Hb. cbn [negb]. eexists; split; [reflexivity|]. split; [reflexivity|].
    cbn [Auth.token]. apply issued_token_decodes; lia.
  - intros Hg. rewrite Hg. reflexivity.
  - intros [uid uemail uhash] Hg Hb. rewrite Hg. cbn [Auth.password_hash] in *.
    destruct Hb as [Hb|[m Hb]]; rewrite Hb; reflexivity.
  - intros e Hg. rewrite Hg. reflexivity.
  - intros rows u. unfold Auth.table_get_by_email. intros H. injection H as H.
    apply List.find_some in H as [_ Hu]. apply String.eqb_eq in Hu. exact Hu.
Qed.

Lemma C8_login_outcomes_witness :
  Auth.login (Auth.table_get_by_email [Auth.mk_auth_user "u1" "a@example.com" "hash-a"])
    (fun p h => inr (String.eqb p "pw" && String.eqb h "hash-a")) "secret" 1700000000
    (Auth.mk_login_request " a@example.com " "wrong")
  = inl (UNAUTHORIZED, error_body "Usuario o contraseña incorrectos").
Proof.
  pose proof (C8_login_outcomes
    (Auth.table_get_by_email [Auth.mk_auth_user "u1" "a@example.com" "hash-a"])
    (fun p h => inr (String.eqb p "pw" && String.eqb h "hash-a")) "secret" 1700000000
    (Auth.mk_login_request " a@example.com " "wrong") ltac:(lia) ltac:(lia))
    as (_ & _ & H & _).
  apply (H (Auth.mk_auth_user "u1" "a@example.com" "hash-a")).
  - vm_compute. reflexivity.
  - left. vm_compute. reflexivity.
Defined.

End AccountClaims.

(* ------------------------------------------------------------------ *)
(** ** Paginated listings *)

Module PaginationClaims.
Import Pagination.

Lemma limit_of_le (q : PaginationQuery) : limit_of q <= 100.
Proof. unfold limit_of. lia. Qed.

Lemma get_paginated_length {A} (rows : list A) (page limit : Z) :
  (length (get_paginated rows page limit) <= Z.to_nat limit)%nat.
Proof. unfold get_paginated. rewrite List.length_firstn. lia. Qed.

Lemma get_paginated_le_100 {A} (rows : list A) (q : PaginationQuery) :
  (length (get_paginated rows (page_of q) (limit_of q)) <= 100)%nat.
Proof.
  eapply Nat.le_trans; [apply get_paginated_length|].
  pose proof (limit_of_le q). lia.
Qed.

(** C10: every paginated endpoint (poses, poses by hashtag, posts,
    portfolio images) defaults the page to 0 and the limit to 20, clamps
    the limit to at most 100, passes these two values to the repository
    query, and so returns at most 100 items. *)
Theorem C10_pagination_bounds {A} (rows : list A) (rows_of : string -> list A)
    (key : string) (q : PaginationQuery) :
  page_of (mk_query None (limit q)) = 0 /\
  limit_of (mk_query (page q) None) = 20 /\
  limit_of q <= 100 /\
  (forall l, limit q = Some l -> l <= 100 -> limit_of q = l) /\
  list_poses_paginated rows q = get_paginated rows (page_of q) (limit_of q) /\
  get_poses_by_hashtag_paginated rows_of key q
    = get_paginated (rows_of key) (page_of q) (limit_of q) /\
  (length (list_poses_paginated rows q) <= 100)%nat /\
  (length (get_poses_by_hashtag_paginated rows_of key q) <= 100)%nat /\
  (forall r, list_posts_paginated rows q = Some r ->
     items r = get_paginated rows (page_of q) (limit_of q) /\
     pg_page r = page_of q /\ pg_limit r = limit_of q /\
     (length (items r) <= 100)%nat) /\
  (forall r, get_portfolio_images rows_of key q = Some r ->
     items r = get_paginated (rows_of key) (page_of q) (limit_of q) /\
     pg_page r = page_of q /\ pg_limit r = limit_of q /\
     (length (items r) <= 100)%nat).
Proof.
  split; [reflexivity|]. split; [reflexivity|]. split; [apply limit_of_le|].
  split; [intros l Hl Hle; unfold limit_of; rewrite Hl; simpl; lia|].
  split; [reflexivity|]. split; [reflexivity|].
  split; [apply get_paginated_le_100|]. split; [apply get_paginated_le_100|].
  split.
  - intros r. unfold list_posts_paginated.
    destruct (total_pages _ _); [|discriminate].
    intros H. injection H as <-. cbn. split; [reflexivity|].
    split; [reflexivity|]. split; [reflexivity|]. apply get_paginated_le_100.
  - intros r. unfold get_portfolio_images.
    destruct (total_pages _ _); [|discriminate].
    intros H. injection H as <-. cbn. split; [reflexivity|].
    split; [reflexivity|]. split; [reflexivity|]. apply get_paginated_le_100.
Qed.

Lemma C10_pagination_bounds_witness :
  exists r, list_posts_paginated (List.repeat tt 250) (mk_query (Some 1) (Some 500)) = Some r /\
    pg_limit r = 100 /\ (length (items r) <= 100)%nat.
Proof.
  eexists. split; [vm_compute; reflexivity|].
  pose proof (C10_pagination_bounds (List.repeat tt 250) (fun _ => [])
                "" (mk_query (Some 1) (Some 500))) as (_ & _ & _ & _ & _ & _ & _ & _ & H & _).
  destruct (H _ ltac:(vm_compute; reflexivity)) as (_ & _ & Hl & Hlen).
  split; [exact Hl | exact Hlen].
Defined.

End PaginationClaims.

(* ------------------------------------------------------------------ *)
(** ** Use cases over the repositories *)

Module UseCaseFacts.
Import UseCases.

Lemma mem_In (x : string) (l : list string) : mem x l = true <-> In x l.
Proof.
  unfold mem. rewrite existsb_exists. split.
  - intros [y [Hy Heq]]. apply String.eqb_eq in Heq. subst. exact Hy.
  - intros H. exists x. split; [exact H | apply String.eqb_refl].
Qed.

Lemma mem_false (x : string) (l : list string) : mem x l = false <-> ~ In x l.
Proof.
  rewrite <- mem_In. destruct (mem x l); split; congruence.
Qed.

(** The adding loop of [update_pose_hashtags] on the SQL store. *)
Lemma fold_add_links (pose : string) (C l : list string) (db : Db) :
  let db' := List.fold_left
      (fun s id => if mem id C then s
                   else fst (add_hashtag_to_pose sql_hashtags_repo pose id s)) l db in
  db' = set_hashtag_image db (hashtag_image db') /\
  forall q, q ∈ hashtag_image db' <->
            q ∈ hashtag_image db \/ exists h, q = (pose, h) /\ In h l /\ ~ In h C.
Proof.
  revert db. induction l as [|a l IH]; intros db; cbn [List.fold_left].
  - split; [destruct db; reflexivity|]. intros q. split; [tauto|].
    intros [H|(h & _ & [] & _)]. exact H.
  - destruct (mem a C) eqn:Ha.
    + destruct (IH db) as [E M]. split; [exact E|]. intros q. rewrite M.
      apply mem_In in Ha. split.
      * intros [H|(h & -> & Hh & HC)]; [left; exact H|].
        right. exists h. split; [reflexivity|]. split; [right; exact Hh | exact HC].
      * intros [H|(h & -> & [<-|Hh] & HC)]; [left; exact H| contradiction |].
        right. exists h. auto.
    + apply mem_false in Ha.
      destruct (IH (fst (add_hashtag_to_pose sql_hashtags_repo pose a db))) as [E M].
      split; [rewrite E; reflexivity|]. intros q. rewrite M.
      cbn [fst add_hashtag_to_pose sql_hashtags_repo hashtag_image set_hashtag_image].
      rewrite elem_of_union, elem_of_singleton. split.
      * intros [[->|H]|(h & -> & Hh & HC)].
        -- right. exists a. split; [reflexivity|]. split; [left; reflexivity | exact Ha].
        -- left. exact H.
        -- right. exists h. split; [reflexivity|]. split; [right; exact Hh | exact HC].
      * intros [H|(h & -> & [<-|Hh] & HC)].
        -- left. right. exact H.
        -- left. left. reflexivity.
        -- right. exists h. auto.
Qed.

(** The removing loop of [update_pose_hashtags] on the SQL store. *)
Lemma fold_remove_links (pose : string) (N l : list string) (db : Db) :
  let db' := List.fold_left
      (fun s id => if mem id N then s
                   else fst (remove_hashtag_from_pose sql_hashtags_repo pose id s)) l db in
  db' = set_hashtag_image db (hashtag_image db') /\
  forall q, q ∈ hashtag_image db' <->
            q ∈ hashtag_image db /\ ~ exists h, q = (pose, h) /\ In h l /\ ~ In h N.
Proof.
  revert db. induction l as [|a l IH]; intros db; cbn [List.fold_left].
  - split; [destruct db; reflexivity|]. intros q. split.
    + intros H. split; [exact H|]. intros (h & _ & [] & _).
    + intros [H _]. exact H.
  - destruct (mem a N) eqn:Ha.
    + destruct (IH db) as [E M]. split; [exact E|]. intros q. rewrite M.
      apply mem_In in Ha. split.
      * intros [H Hn]. split; [exact H|]. intros (h & -> & [<-|Hh] & HN); [contradiction|].
        apply Hn. exists h. auto.
      * intros [H Hn]. split; [exact H|]. intros (h & -> & Hh & HN).
        apply Hn. exists h. split; [reflexivity|]. split; [right; exact Hh | exact HN].
    + apply mem_false in Ha.
      destruct (IH (fst (remove_hashtag_from_pose sql_hashtags_repo pose a db))) as [E M].
      split; [rewrite E; reflexivity|]. intros q. rewrite M.
      cbn [fst remove_hashtag_from_pose sql_hashtags_repo hashtag_image set_hashtag_image].
      rewrite elem_of_difference, elem_of_singleton. split.
      * intros [[H Hq] Hn]. split; [exact H|]. intros (h & -> & [<-|Hh] & HN); [now apply Hq|].
        apply Hn. exists h. auto.
      * intros [H Hn]. split; [split; [exact H|]|].
        -- intros ->. apply Hn. exists a. split; [reflexivity|]. split; [left; reflexivity|exact Ha].
        -- intros (h & -> & Hh & HN). apply Hn. exists h.
           split; [reflexivity|]. split; [right; exact Hh | exact HN].
Qed.

Lemma in_hashtags_by_pose (pose h : string) (db : Db) :
  In h (List.map snd (elements
          (filter (fun ph : string * string => ph.1 = pose /\ ph.2 ∈ db_hashtags db)
                  (hashtag_image db))))
  <-> (pose, h) ∈ hashtag_image db /\ h ∈ db_hashtags db.
Proof.
  rewrite in_map_iff. split.
  - intros [[p h'] [Heq Hin]]. cbn in Heq. subst h'.
    rewrite <- list_elem_of_In, elem_of_elements, elem_of_filter in Hin.
    destruct Hin as [[Hp Hh] Hin]. cbn in Hp, Hh. subst p. auto.
  - intros [Hin Hh]. exists (pose, h). split; [reflexivity|].
    rewrite <- list_elem_of_In, elem_of_elements, elem_of_filter. auto.
Qed.

(** Hashtag sync: with every statement succeeding, [update_pose_hashtags]
    answers [Ok]; afterwards the pose is linked to every requested
    hashtag id, and to an existing hashtag exactly when its id was
    requested; the links of other poses and the other tables are left
    as they were. *)
Theorem update_pose_hashtags_sync (iter : list string -> list string)
    (Hiter : forall l x, In x (iter l) <-> In x l)
    (pose : string) (ids : list string) (db : Db) :
  snd (update_pose_hashtags sql_hashtags_repo iter pose ids db) = inr tt /\
  fst (update_pose_hashtags sql_hashtags_repo iter pose ids db)
    = set_hashtag_image db
        (hashtag_image (fst (update_pose_hashtags sql_hashtags_repo iter pose ids db))) /\
  (forall h, In h ids ->
     (pose, h) ∈ hashtag_image (fst (update_pose_hashtags sql_hashtags_repo iter pose ids db))) /\
  (forall h, h ∈ db_hashtags db ->
     (pose, h) ∈ hashtag_image (fst (update_pose_hashtags sql_hashtags_repo iter pose ids db))
     <-> In h ids) /\
  (forall p h, p <> pose ->
     (p, h) ∈ hashtag_image (fst (update_pose_hashtags sql_hashtags_repo iter pose ids db))
     <-> (p, h) ∈ hashtag_image db).
Proof.
  unfold update_pose_hashtags. cbn [get_hashtags_by_pose sql_hashtags_repo fst snd].
  match goal with |- context [iter (List.map snd ?c)] => set (cur := List.map snd c) end.
  assert (Hcur : forall h, In h (iter cur) <->
                 (pose, h) ∈ hashtag_image db /\ h ∈ db_hashtags db)
    by (intros h; rewrite Hiter; apply in_hashtags_by_pose).
  destruct (fold_add_links pose (iter cur) (iter ids) db) as [E1 M1].
  match type of E1 with ?d = _ => set (db1 := d) in * end.
  destruct (fold_remove_links pose (iter ids) (iter cur) db1) as [E2 M2].
  match type of E2 with ?d = _ => set (db2 := d) in * end.
  split; [reflexivity|].
  split; [rewrite E2, E1; reflexivity|].
  assert (Hpose : forall h, (pose, h) ∈ hashtag_image db2 <->
     ((pose, h) ∈ hashtag_image db \/ In h ids /\ ~ In h (iter cur)) /\
     ~ (In h (iter cur) /\ ~ In h ids)).
  { intros h. rewrite M2, M1. rewrite <- (Hiter ids h). split.
    - intros [[H|(h' & Heq & H1 & H2)] Hn].
      + split; [left; exact H|]. intros [H1 H2]. apply Hn. exists h. auto.
      + injection Heq as <-. split; [right; auto|]. intros [H3 H4]. contradiction.
    - intros [[H|[H1 H2]] Hn].
      + split; [left; exact H|]. intros (h' & Heq & H1 & H2). injection Heq as <-. auto.
      + split; [right; exists h; auto|]. intros (h' & Heq & H3 & H4). injection Heq as <-. auto. }
  split; [|split].
  - intros h Hh. apply Hpose. rewrite Hcur. split.
    + destruct (decide ((pose, h) ∈ hashtag_image db)) as [Hi|Hi]; [left; exact Hi|].
      right. split; [exact Hh|]. intros [Hc _]. contradiction.
    + intros [_ Hn]. contradiction.
  - intros h Hk. rewrite Hpose, !Hcur. split.
    + intros [[Hi|[Hi _]] Hn]; [|exact Hi].
      destruct (in_dec string_dec h ids) as [Hin|Hin]; [exact Hin|].
      exfalso. apply Hn. auto.
    + intros Hin. split.
      * destruct (decide ((pose, h) ∈ hashtag_image db)) as [Hi|Hi]; [left; exact Hi|].
        right. split; [exact Hin|]. intros [Hc _]. contradiction.
      * intros [_ Hn]. contradiction.
  - intros p h Hp. rewrite M2, M1. split.
    + intros [[H|(h' & Heq & _)] _]; [exact H|]. injection Heq as Heq _. contradiction.
    + intros H. split; [left; exact H|]. intros (h' & Heq & _). injection Heq as Heq _.
      contradiction.
Qed.

Lemma update_pose_hashtags_sync_witness :
  ("p1", "h3") ∈ hashtag_image (fst (update_pose_hashtags sql_hashtags_repo remove_dups
     "p1" ["h2"; "h3"; "h3"]
     (mk_db {[ "h1"; "h2"; "h3" ]} {[ "p1"; "p2" ]}
            {[ ("p1", "h1"); ("p1", "h2"); ("p2", "h1") ]} ∅ ∅ ∅))) /\
  ("p1", "h1") ∉ hashtag_image (fst (update_pose_hashtags sql_hashtags_repo remove_dups
     "p1" ["h2"; "h3"; "h3"]
     (mk_db {[ "h1"; "h2"; "h3" ]} {[ "p1"; "p2" ]}
            {[ ("p1", "h1"); ("p1", "h2"); ("p2", "h1") ]} ∅ ∅ ∅))).
Proof.
  destruct (update_pose_hashtags_sync remove_dups
              (fun l x => iff_trans (iff_sym (list_elem_of_In _ _))
                            (iff_trans (elem_of_remove_dups l x) (list_elem_of_In _ _)))
              "p1" ["h2"; "h3"; "h3"]
              (mk_db {[ "h1"; "h2"; "h3" ]} {[ "p1"; "p2" ]}
                     {[ ("p1", "h1"); ("p1", "h2"); ("p2", "h1") ]} ∅ ∅ ∅))
    as (_ & _ & Hall & Hex & _).
  split.
  - apply Hall. simpl. tauto.
  - rewrite Hex; [simpl; intros [H|[H|[H|[]]]]; discriminate H | cbn; set_solver].
Defined.

(** The whole hashtag table after [update_pose_hashtags] on the SQL store. *)
Lemma update_pose_hashtags_sql_state (iter : list string -> list string)
    (Hiter : forall l x, In x (iter l) <-> In x l)
    (pose : string) (ids : list string) (db : Db) :
  snd (update_pose_hashtags sql_hashtags_repo iter pose ids db) = inr tt /\
  fst (update_pose_hashtags sql_hashtags_repo iter pose ids db)
    = set_hashtag_image db
        (hashtag_image (fst (update_pose_hashtags sql_hashtags_repo iter pose ids db))) /\
  forall q, q ∈ hashtag_image (fst (update_pose_hashtags sql_hashtags_repo iter pose ids db))
    <-> (q ∈ hashtag_image db /\
         ~ exists h, q = (pose, h) /\ h ∈ db_hashtags db /\ ~ In h ids) \/
        exists h, q = (pose, h) /\ In h ids.
Proof.
  unfold update_pose_hashtags. cbn [get_hashtags_by_pose sql_hashtags_repo fst snd].
  match goal with |- context [iter (List.map snd ?c)] => set (cur := List.map snd c) end.
  assert (Hcur : forall h, In h (iter cur) <->
                 (pose, h) ∈ hashtag_image db /\ h ∈ db_hashtags db)
    by (intros h; rewrite Hiter; apply in_hashtags_by_pose).
  destruct (fold_add_links pose (iter cur) (iter ids) db) as [E1 M1].
  match type of E1 with ?d = _ => set (db1 := d) in * end.
  destruct (fold_remove_links pose (iter ids) (iter cur) db1) as [E2 M2].
  match type of E2 with ?d = _ => set (db2 := d) in * end.
  split; [reflexivity|]. split; [rewrite E2, E1; reflexivity|].
  intros [p h]. rewrite M2, M1.
  destruct (decide (p = pose)) as [->|Hp].
  - assert (A1 : (exists h', (pose, h) = (pose, h') /\ In h' (iter ids) /\ ~ In h' (iter cur))
                 <-> In h ids /\ ~ ((pose, h) ∈ hashtag_image db /\ h ∈ db_hashtags db)).
    { rewrite <- Hiter, <- Hcur. split.
      - intros (h' & Heq & H1 & H2). injection Heq as <-. auto.
      - intros [H1 H2]. exists h. auto. }
    assert (A2 : (exists h', (pose, h) = (pose, h') /\ In h' (iter cur) /\ ~ In h' (iter ids))
                 <-> ((pose, h) ∈ hashtag_image db /\ h ∈ db_hashtags db) /\ ~ In h ids).
    { rewrite <- Hiter, <- Hcur. split.
      - intros (h' & Heq & H1 & H2). injection Heq as <-. auto.
      - intros [H1 H2]. exists h. auto. }
    assert (A3 : (exists h', (pose, h) = (pose, h') /\ h' ∈ db_hashtags db /\ ~ In h' ids)
                 <-> h ∈ db_hashtags db /\ ~ In h ids).
    { split.
      - intros (h' & Heq & H1 & H2). injection Heq as <-. auto.
      - intros [H1 H2]. exists h. auto. }
    assert (A4 : (exists h', (pose, h) = (pose, h') /\ In h' ids) <-> In h ids).
    { split.
      - intros (h' & Heq & H1). injection Heq as <-. exact H1.
      - intros H1. exists h. auto. }
    rewrite A1, A2, A3, A4.
    destruct (decide ((pose, h) ∈ hashtag_image db));
      destruct (decide (h ∈ db_hashtags db));
      destruct (in_dec string_dec h ids); tauto.
  - assert (B : forall P : string -> Prop, ~ exists h', (p, h) = (pose, h') /\ P h').
    { intros P (h' & Heq & _). injection Heq as Heq _. contradiction. }
    split.
    + intros [[H|Hx] _]; [left; split; [exact H|apply B]|]. exfalso. exact (B _ Hx).
    + intros [[H _]|Hx]; [|exfalso; exact (B _ Hx)].
      split; [left; exact H|apply B].
Qed.

(** The outcome of [update_pose_hashtags] on the SQL store does not
    depend on the order in which the two [HashSet]s are iterated: any two
    iteration orders give the same answer and the same tables. *)
Theorem update_pose_hashtags_order_independent (iter1 iter2 : list string -> list string)
    (H1 : forall l x, In x (iter1 l) <-> In x l)
    (H2 : forall l x, In x (iter2 l) <-> In x l)
    (pose : string) (ids : list string) (db : Db) :
  update_pose_hashtags sql_hashtags_repo iter1 pose ids db
  = update_pose_hashtags sql_hashtags_repo iter2 pose ids db.
Proof.
  destruct (update_pose_hashtags_sql_state iter1 H1 pose ids db) as (R1 & E1 & M1).
  destruct (update_pose_hashtags_sql_state iter2 H2 pose ids db) as (R2 & E2 & M2).
  destruct (update_pose_hashtags sql_hashtags_repo iter1 pose ids db) as [d1 r1].
  destruct (update_pose_hashtags sql_hashtags_repo iter2 pose ids db) as [d2 r2].
  cbn [fst snd] in *. subst r1 r2. f_equal.
  rewrite E1, E2. f_equal. apply leibniz_equiv. intros q. rewrite M1, M2. reflexivity.
Qed.

Lemma update_pose_hashtags_order_independent_witness :
  update_pose_hashtags sql_hashtags_repo (fun l => l) "p1" ["h2"; "h3"]
    (mk_db {[ "h1"; "h2"; "h3" ]} ∅ {[ ("p1", "h1"); ("p2", "h2") ]} ∅ ∅ ∅)
  = update_pose_hashtags sql_hashtags_repo (@List.rev string) "p1" ["h2"; "h3"]
    (mk_db {[ "h1"; "h2"; "h3" ]} ∅ {[ ("p1", "h1"); ("p2", "h2") ]} ∅ ∅ ∅).
Proof.
  apply update_pose_hashtags_order_independent.
  - intros l x. reflexivity.
  - intros l x. split; [apply List.in_rev|apply List.in_rev].
Defined.

End UseCaseFacts.

Module FavoriteFacts.
Import UseCases.

(** Deleting a pose on the SQL store: the call answers [Ok], the pose is
    gone, no hashtag link of it is left, and the other poses and the
    links of the other poses are untouched. *)
Theorem delete_pose_sql (id : string) (db : Db) :
  snd (delete_pose sql_hashtags_repo sql_delete_pose id db) = inr tt /\
  (id ∉ db_poses (fst (delete_pose sql_hashtags_repo sql_delete_pose id db))) /\
  (forall p, p <> id ->
     p ∈ db_poses (fst (delete_pose sql_hashtags_repo sql_delete_pose id db)) <-> p ∈ db_poses db) /\
  (forall h, (id, h) ∉ hashtag_image (fst (delete_pose sql_hashtags_repo sql_delete_pose id db))) /\
  (forall p h, p <> id ->
     (p, h) ∈ hashtag_image (fst (delete_pose sql_hashtags_repo sql_delete_pose id db))
     <-> (p, h) ∈ hashtag_image db).
Proof.
  unfold delete_pose, sql_delete_pose. cbn.
  split; [reflexivity|]. split; [set_solver|]. split; [intros p Hp; set_solver|].
  split.
  - intros h. rewrite elem_of_filter. cbn. tauto.
  - intros p h Hp. rewrite elem_of_filter. cbn. tauto.
Qed.

(** Toggling a favourite on the SQL store: for an absent (user, pose)
    row it inserts exactly that row and answers [true]; for a present one
    [is_pose_favorite] fails to decode its row, so the toggle answers that
    repository error and leaves the store unchanged. A favourite is thus
    never removed by toggling: toggling twice keeps the row and fails. *)
Theorem toggle_pose_favorite_sql (u p : string) (db : Db) :
  ((u, p) ∉ favoritos db ->
     snd (toggle_pose_favorite sql_favorites_repo u p db) = inr true /\
     fst (toggle_pose_favorite sql_favorites_repo u p db)
       = set_favoritos db (favoritos (fst (toggle_pose_favorite sql_favorites_repo u p db))) /\
     (forall q, q ∈ favoritos (fst (toggle_pose_favorite sql_favorites_repo u p db))
                <-> q = (u, p) \/ q ∈ favoritos db)) /\
  ((u, p) ∈ favoritos db ->
     toggle_pose_favorite sql_favorites_repo u p db
       = (db, inl (Repository is_pose_favorite_decode_error))) /\
  snd (toggle_pose_favorite sql_favorites_repo u p
         (fst (toggle_pose_favorite sql_favorites_repo u p db)))
    = inl (Repository is_pose_favorite_decode_error) /\
  (u, p) ∈ favoritos (fst (toggle_pose_favorite sql_favorites_repo u p
                             (fst (toggle_pose_favorite sql_favorites_repo u p db)))).
Proof.
  unfold toggle_pose_favorite. cbn [is_pose_favorite add_pose_to_favorites
    remove_pose_from_favorites sql_favorites_repo].
  destruct (bool_decide ((u, p) ∈ favoritos db)) eqn:Hb.
  - apply bool_decide_eq_true in Hb. cbn.
    split; [intros Hn; contradiction|]. split; [intros _; reflexivity|].
    rewrite bool_decide_eq_true_2 by exact Hb. cbn. split; [reflexivity | exact Hb].
  - apply bool_decide_eq_false in Hb. cbn.
    split; [|split; [intros Hi; contradiction|]].
    + intros _. split; [reflexivity|]. split; [reflexivity|].
      intros q. rewrite elem_of_union, elem_of_singleton. reflexivity.
    + rewrite bool_decide_eq_true_2 by set_solver. cbn. split; [reflexivity | set_solver].
Qed.

Lemma in_favorite_poses (u p : string) (db : Db) :
  In p (List.map snd (elements
          (filter (fun up : string * string => up.1 = u /\ up.2 ∈ db_poses db)
                  (favoritos db))))
  <-> (u, p) ∈ favoritos db /\ p ∈ db_poses db.
Proof.
  rewrite in_map_iff. split.
  - intros [[u' p'] [Heq Hin]]. cbn in Heq. subst p'.
    rewrite <- list_elem_of_In, elem_of_elements, elem_of_filter in Hin.
    destruct Hin as [[Hu Hp] Hin]. cbn in Hu, Hp. subst u'. auto.
  - intros [Hin Hp]. exists (u, p). split; [reflexivity|].
    rewrite <- list_elem_of_In, elem_of_elements, elem_of_filter. auto.
Qed.

Lemma fold_add_sesion_image (s : string) (ps : list string) (db : Db) :
  let d' := List.fold_left (fun d p => set_sesion_image d ({[(s, p)]} ∪ sesion_image d)) ps db in
  d' = set_sesion_image db (sesion_image d') /\
  forall q, q ∈ sesion_image d' <-> q ∈ sesion_image db \/ exists p, q = (s, p) /\ In p ps.
Proof.
  revert db. induction ps as [|a ps IH]; intros db; cbn [List.fold_left].
  - split; [destruct db; reflexivity|]. intros q. split; [tauto|].
    intros [H|(p & _ & [])]. exact H.
  - destruct (IH (set_sesion_image db ({[(s, a)]} ∪ sesion_image db))) as [E M].
    split; [rewrite E; reflexivity|]. intros q. rewrite M. cbn [sesion_image set_sesion_image].
    rewrite elem_of_union, elem_of_singleton. split.
    + intros [[->|H]|(p & -> & Hp)]; [right; exists a; cbn; auto|left; exact H|].
      right. exists p. cbn. auto.
    + intros [H|(p & -> & [<-|Hp])]; [left; right; exact H|left; left; reflexivity|].
      right. exists p. auto.
Qed.

(** The outcome of moving a user's favourites to a session on the SQL store. *)
Lemma move_favorites_sql (nid u s : string) (db : Db) :
  snd (add_favorites_to_sesion (sql_sesiones_repo nid) sql_favorites_repo u s db) = inr tt /\
  (forall p, (s, p) ∈ sesion_image
               (fst (add_favorites_to_sesion (sql_sesiones_repo nid) sql_favorites_repo u s db))
     <-> (s, p) ∈ sesion_image db \/ (p ∈ db_poses db /\ (u, p) ∈ favoritos db)) /\
  (forall s' p, s' <> s ->
     (s', p) ∈ sesion_image
               (fst (add_favorites_to_sesion (sql_sesiones_repo nid) sql_favorites_repo u s db))
     <-> (s', p) ∈ sesion_image db) /\
  (forall p, p ∈ db_poses db ->
     (u, p) ∉ favoritos
               (fst (add_favorites_to_sesion (sql_sesiones_repo nid) sql_favorites_repo u s db))) /\
  (forall u' p, u' <> u \/ p ∉ db_poses db ->
     (u', p) ∈ favoritos
               (fst (add_favorites_to_sesion (sql_sesiones_repo nid) sql_favorites_repo u s db))
     <-> (u', p) ∈ favoritos db) /\
  db_poses (fst (add_favorites_to_sesion (sql_sesiones_repo nid) sql_favorites_repo u s db))
    = db_poses db /\
  sesiones (fst (add_favorites_to_sesion (sql_sesiones_repo nid) sql_favorites_repo u s db))
    = sesiones db.
Proof.
  unfold add_favorites_to_sesion. cbn [get_favorite_poses sql_favorites_repo].
  match goal with |- context [is_nil (List.map snd ?c)] => set (ids := List.map snd c) end.
  assert (Hids : forall p, In p ids <-> (u, p) ∈ favoritos db /\ p ∈ db_poses db)
    by (intros p; apply in_favorite_poses).
  destruct (is_nil ids) eqn:Hn.
  - assert (Hnil : ids = []) by (destruct ids; [reflexivity|discriminate]).
    cbn [fst snd]. split; [reflexivity|]. split.
    + intros p. split; [tauto|]. intros [H|[Hp Hf]]; [exact H|].
      exfalso. assert (Hin : In p ids) by (apply Hids; auto).
      rewrite Hnil in Hin. exact Hin.
    + split; [tauto|]. split; [|split; [tauto|split; reflexivity]].
      intros p Hp Hf. assert (Hin : In p ids) by (apply Hids; auto).
      rewrite Hnil in Hin. exact Hin.
  - cbn [add_poses_to_sesion sql_sesiones_repo remove_poses_from_favorites].
    rewrite Hn. cbn [fst snd].
    destruct (fold_add_sesion_image s ids db) as [E M].
    match type of E with ?d = _ => set (db1 := d) in * end.
    assert (F1 : favoritos db1 = favoritos db) by (rewrite E; reflexivity).
    assert (P1 : db_poses db1 = db_poses db) by (rewrite E; reflexivity).
    assert (S1 : sesiones db1 = sesiones db) by (rewrite E; reflexivity).
    cbn [remove_poses_from_favorites sql_favorites_repo]. rewrite Hn.
    cbn [fst snd sesion_image favoritos db_poses sesiones set_favoritos].
    split; [reflexivity|]. split; [|split; [|split; [|split; [|split]]]].
    + intros p. rewrite M. split.
      * intros [H|(p' & Heq & Hp)]; [left; exact H|]. injection Heq as <-.
        right. apply Hids in Hp. tauto.
      * intros [H|[Hp Hf]]; [left; exact H|]. right. exists p. split; [reflexivity|].
        apply Hids. auto.
    + intros s' p Hs. rewrite M. split; [|left; assumption].
      intros [H|(p' & Heq & _)]; [exact H|]. injection Heq as Heq _. contradiction.
    + intros p Hp. rewrite elem_of_filter, F1. cbn. intros [Hn' Hf]. apply Hn'.
      split; [reflexivity|]. apply list_elem_of_In, Hids. auto.
    + intros u' p Hup. rewrite elem_of_filter, F1. cbn. split; [tauto|].
      intros Hf. split; [|exact Hf]. intros [-> Hin].
      apply list_elem_of_In, Hids in Hin. destruct Hup as [Hu|Hp]; [now apply Hu|tauto].
    + exact P1.
    + exact S1.
Qed.

(** Moving favourites to a session on the SQL store: the call answers
    [Ok]; the session then holds its previous poses plus every existing
    pose the user had as favourite, those favourites are gone, and the
    other sessions, the other users' favourites and the poses and
    sessions tables are unchanged. *)
Theorem add_favorites_to_sesion_sql (nid u s : string) (db : Db) :
  snd (add_favorites_to_sesion (sql_sesiones_repo nid) sql_favorites_repo u s db) = inr tt /\
  (forall p, (s, p) ∈ sesion_image
               (fst (add_favorites_to_sesion (sql_sesiones_repo nid) sql_favorites_repo u s db))
     <-> (s, p) ∈ sesion_image db \/ (p ∈ db_poses db /\ (u, p) ∈ favoritos db)) /\
  (forall s' p, s' <> s ->
     (s', p) ∈ sesion_image
               (fst (add_favorites_to_sesion (sql_sesiones_repo nid) sql_favorites_repo u s db))
     <-> (s', p) ∈ sesion_image db) /\
  (forall p, p ∈ db_poses db ->
     (u, p) ∉ favoritos
               (fst (add_favorites_to_sesion (sql_sesiones_repo nid) sql_favorites_repo u s db))) /\
  (forall u' p, u' <> u \/ p ∉ db_poses db ->
     (u', p) ∈ favoritos
               (fst (add_favorites_to_sesion (sql_sesiones_repo nid) sql_favorites_repo u s db))
     <-> (u', p) ∈ favoritos db) /\
  db_poses (fst (add_favorites_to_sesion (sql_sesiones_repo nid) sql_favorites_repo u s db))
    = db_poses db /\
  sesiones (fst (add_favorites_to_sesion (sql_sesiones_repo nid) sql_favorites_repo u s db))
    = sesiones db.
Proof. apply move_favorites_sql. Qed.

Lemma create_sesion_from_favorites_sql_eq (nid u name : string) (db : Db) :
  create_sesion_from_favorites (sql_sesiones_repo nid) sql_favorites_repo u name db
  = (fst (add_favorites_to_sesion (sql_sesiones_repo nid) sql_favorites_repo u nid
            (set_sesiones db (<[nid := name]> (sesiones db)))),
     inr (mk_sesion nid name)).
Proof.
  unfold create_sesion_from_favorites, add_favorites_to_sesion.
  cbn [create_sesion sql_sesiones_repo get_favorite_poses sql_favorites_repo sesion_id].
  match goal with |- context [is_nil ?l] => destruct (is_nil l) eqn:Hn end.
  - reflexivity.
  - cbn [add_poses_to_sesion remove_poses_from_favorites sql_sesiones_repo sql_favorites_repo].
    rewrite Hn. reflexivity.
Qed.

(** Creating a session from the favourites on the SQL store answers the
    new session, records it under its id, moves every existing favourite
    pose of the user into it, and leaves none of them a favourite. *)
Theorem create_sesion_from_favorites_sql (nid u name : string) (db : Db) :
  snd (create_sesion_from_favorites (sql_sesiones_repo nid) sql_favorites_repo u name db)
    = inr (mk_sesion nid name) /\
  sesiones (fst (create_sesion_from_favorites (sql_sesiones_repo nid) sql_favorites_repo u name db))
    !! nid = Some name /\
  (forall p, (nid, p) ∈ sesion_image
       (fst (create_sesion_from_favorites (sql_sesiones_repo nid) sql_favorites_repo u name db))
     <-> (nid, p) ∈ sesion_image db \/ (p ∈ db_poses db /\ (u, p) ∈ favoritos db)) /\
  (forall p, p ∈ db_poses db ->
     (u, p) ∉ favoritos
       (fst (create_sesion_from_favorites (sql_sesiones_repo nid) sql_favorites_repo u name db))).
Proof.
  rewrite create_sesion_from_favorites_sql_eq. cbn [fst snd].
  destruct (move_favorites_sql nid u nid (set_sesiones db (<[nid := name]> (sesiones db))))
    as (_ & Hs & _ & Hf & _ & _ & Hses).
  split; [reflexivity|]. split; [rewrite Hses; apply lookup_insert_eq|].
  split; [exact Hs|exact Hf].
Qed.

(** When adding the favourites to the session fails, the favourites are
    not removed: the call returns that error with the store the failed
    add left, whatever the repositories. *)
Theorem add_favorites_to_sesion_add_failure {S} (srepo : SesionesRepository S)
    (frepo : FavoritesRepository S) (u s : string) (st st1 : S) (ids : list string)
    (e : DomainError)
    (Hget : get_favorite_poses frepo u st = inr ids) (Hne : ids <> [])
    (Hadd : add_poses_to_sesion srepo s ids st = (st1, inl e)) :
  add_favorites_to_sesion srepo frepo u s st = (st1, inl e).
Proof.
  unfold add_favorites_to_sesion. rewrite Hget.
  destruct ids as [|i ids]; [contradiction Hne; reflexivity|]. cbn [is_nil].
  rewrite Hadd. reflexivity.
Qed.

Lemma add_favorites_to_sesion_add_failure_witness :
  add_favorites_to_sesion
    (mk_sesiones_repository Db (fun n d => (d, inr (mk_sesion "s9" n)))
                               (fun _ _ d => (d, inl (Repository "insert"))))
    sql_favorites_repo "u" "s"
    (mk_db ∅ {[ "p" ]} ∅ {[ ("u", "p") ]} ∅ ∅)
  = (mk_db ∅ {[ "p" ]} ∅ {[ ("u", "p") ]} ∅ ∅, inl (Repository "insert")).
Proof.
  apply (add_favorites_to_sesion_add_failure _ _ _ _ _ _ ["p"]);
    [reflexivity | discriminate | reflexivity].
Defined.

(** A failure after the session row is inserted does not undo it: when
    reading the favourites fails, the call returns that error and the
    SQL store keeps the new session. *)
Theorem create_sesion_from_favorites_no_rollback (nid u name : string)
    (frepo : FavoritesRepository Db) (db : Db) (e : DomainError)
    (Hget : get_favorite_poses frepo u (set_sesiones db (<[nid := name]> (sesiones db))) = inl e) :
  create_sesion_from_favorites (sql_sesiones_repo nid) frepo u name db
    = (set_sesiones db (<[nid := name]> (sesiones db)), inl e) /\
  sesiones (fst (create_sesion_from_favorites (sql_sesiones_repo nid) frepo u name db))
    !! nid = Some name.
Proof.
  unfold create_sesion_from_favorites.
  cbn [create_sesion sql_sesiones_repo]. rewrite Hget.
  split; [reflexivity|]. cbn. apply lookup_insert_eq.
Qed.

Lemma create_sesion_from_favorites_no_rollback_witness :
  create_sesion_from_favorites (sql_sesiones_repo "s1")
    (mk_favorites_repository Db (fun _ _ _ => inr false) (fun _ _ d => (d, inr tt))
       (fun _ _ d => (d, inr tt)) (fun _ _ d => (d, inr tt))
       (fun _ _ => inl (Repository "select")))
    "u" "Boda" (mk_db ∅ ∅ ∅ ∅ ∅ ∅)
  = (mk_db ∅ ∅ ∅ ∅ {[ "s1" := "Boda" ]} ∅, inl (Repository "select")).
Proof.
  apply (create_sesion_from_favorites_no_rollback "s1" "u" "Boda"). reflexivity.
Defined.

End FavoriteFacts.

Module PaginationFacts.
Import Pagination.


Lemma wrap_u32_total (c l : Z) :
  wrap_u32 (wrap_u32 (wrap_u32 c + l) - 1) = (c + l - 1) mod 2^32.
Proof.
  unfold wrap_u32. rewrite Zminus_mod_idemp_l, <- Z.add_sub_assoc, Zplus_mod_idemp_l.
  rewrite Z.add_sub_assoc. reflexivity.
Qed.

(** [total_pages] is the ceiling of [count / limit] whenever the sum
    [count + limit - 1] fits in a [u32]: the last page is the one that
    holds the last row. *)
Theorem total_pages_ceil (count limit : Z) (Hc : 0 < count) (Hl : 0 < limit)
    (Hfit : count + limit - 1 <= u32_max) :
  exists tp, total_pages count limit = Some tp /\
             (tp - 1) * limit < count <= tp * limit.
Proof.
  unfold total_pages. rewrite wrap_u32_total.
  destruct (Z.eqb_spec count 0) as [|_]; [lia|].
  destruct (Z.eqb_spec limit 0) as [|_]; [lia|].
  unfold u32_max in Hfit.
  rewrite Z.mod_small by lia.
  eexists. split; [reflexivity|].
  pose proof (Z.div_mod (count + limit - 1) limit ltac:(lia)) as Hd.
  pose proof (Z.mod_pos_bound (count + limit - 1) limit Hl) as Hm.
  nia.
Qed.

Lemma total_pages_ceil_witness :
  total_pages 250 100 = Some 3 /\ (3 - 1) * 100 < 250 <= 3 * 100.
Proof.
  destruct (total_pages_ceil 250 100 ltac:(lia) ltac:(lia) ltac:(unfold u32_max; lia))
    as (tp & Htp & Hb).
  assert (tp = 3) by (vm_compute in Htp; congruence). subst tp.
  split; [exact Htp | exact Hb].
Defined.

(** The paginated posts and portfolio handlers fail (the division by a
    zero [limit] panics) exactly when the limit is 0 and there is at
    least one row; with no rows the response has 0 pages. *)
Theorem paginated_zero_limit {A} (rows : list A) (rows_of : string -> list A)
    (key : string) (q : PaginationQuery) :
  (list_posts_paginated rows q = None <-> limit_of q = 0 /\ rows <> []) /\
  (get_portfolio_images rows_of key q = None <-> limit_of q = 0 /\ rows_of key <> []) /\
  (rows = [] -> exists r, list_posts_paginated rows q = Some r /\
                          items r = [] /\ pg_total_pages r = 0) /\
  (rows_of key = [] -> exists r, get_portfolio_images rows_of key q = Some r /\
                          items r = [] /\ pg_total_pages r = 0).
Proof.
  assert (Htp : forall (xs : list A), total_pages (Z.of_nat (length xs)) (limit_of q) = None
                  <-> limit_of q = 0 /\ xs <> []).
  { intros xs. unfold total_pages.
    destruct (Z.eqb_spec (Z.of_nat (length xs)) 0) as [H0|H0].
    - split; [discriminate|]. intros [_ Hne]. exfalso. apply Hne.
      destruct xs; [reflexivity|]. cbn in H0. lia.
    - destruct (Z.eqb_spec (limit_of q) 0) as [Hl|Hl].
      + split; [intros _; split; [exact Hl|] | reflexivity]. intros ->. apply H0. reflexivity.
      + split; [discriminate|]. intros [Hl' _]. contradiction. }
  unfold list_posts_paginated, get_portfolio_images.
  split; [|split; [|split]].
  - rewrite <- (Htp rows). destruct (total_pages _ _); split; congruence.
  - rewrite <- (Htp (rows_of key)). destruct (total_pages _ _); split; congruence.
  - intros ->. eexists. split; [reflexivity|]. cbn.
    split; [unfold get_paginated; rewrite List.skipn_nil, List.firstn_nil; reflexivity|reflexivity].
  - intros Hk. rewrite Hk. eexists. split; [reflexivity|]. cbn.
    split; [unfold get_paginated; rewrite List.skipn_nil, List.firstn_nil; reflexivity|reflexivity].
Qed.



End PaginationFacts.

Module ImageFacts.
Import Image Handlers.

Lemma trim_start_head (s : string) (c : ascii) (r : string) :
  Str.trim_start s = String c r -> Str.is_ws c = false.
Proof.
  induction s as [|a s IH]; cbn; [discriminate|].
  destruct (Str.is_ws a) eqn:Ha; [exact IH|]. intros H. injection H as <- _. exact Ha.
Qed.

Lemma string_of_list_ascii_app (l1 l2 : list ascii) :
  string_of_list_ascii (l1 ++ l2)%list = string_of_list_ascii l1 ++ string_of_list_ascii l2.
Proof. induction l1 as [|a l1 IH]; cbn; [reflexivity|]. rewrite IH. reflexivity. Qed.

Lemma rev_str_cons (c : ascii) (r : string) :
  Str.rev_str (String c r) = Str.rev_str r ++ String c EmptyString.
Proof.
  unfold Str.rev_str. cbn [list_ascii_of_string List.rev].
  rewrite string_of_list_ascii_app. reflexivity.
Qed.

Lemma trim_start_app_nonws (x : string) (c : ascii) :
  Str.is_ws c = false -> Str.trim_start (x ++ String c EmptyString) <> EmptyString.
Proof.
  intros Hc. induction x as [|a x IH]; cbn.
  - rewrite Hc. discriminate.
  - destruct (Str.is_ws a); [exact IH|discriminate].
Qed.

Lemma rev_str_empty (s : string) : Str.rev_str s = EmptyString -> s = EmptyString.
Proof.
  destruct s as [|c r]; [reflexivity|]. rewrite rev_str_cons.
  destruct (Str.rev_str r); discriminate.
Qed.

Lemma trim_empty_iff (s : string) : Str.trim s = EmptyString <-> Str.trim_start s = EmptyString.
Proof.
  unfold Str.trim, Str.trim_end. split.
  - intros H. destruct (Str.trim_start s) as [|c r] eqn:E; [reflexivity|].
    exfalso. apply rev_str_empty in H. rewrite rev_str_cons in H.
    exact (trim_start_app_nonws _ c (trim_start_head _ _ _ E) H).
  - intros ->. reflexivity.
Qed.

Lemma strip_data_trim_start (s r : string) :
  Str.strip_prefix "data:" s = Some r -> Str.trim_start s = s /\ s <> EmptyString.
Proof.
  destruct s as [|a s]; cbn [Str.strip_prefix]; [discriminate|].
  destruct (Ascii.eqb "d" a) eqn:E; [|discriminate].
  apply Ascii.eqb_eq in E. subst a. intros _. split; [reflexivity|discriminate].
Qed.

(** The shape of a successful standard base64 decoding: whole quads,
    three bytes each, the last one possibly padded down to one or two. *)
Lemma b64_decode_from_shape (n : nat) : forall (s : string) (off : nat) bs,
  (String.length s <= n)%nat -> b64_decode_from off s = inr bs ->
  exists q, String.length s = (4 * q)%nat /\
    (length bs = 3 * q \/ (0 < q /\ (length bs = 3 * q - 1 \/ length bs = 3 * q - 2)))%nat.
Proof.
  induction n as [|n IH]; intros s off bs Hlen H.
  - destruct s; [|cbn in Hlen; lia]. cbn in H. injection H as <-. exists 0%nat. cbn. lia.
  - destruct s as [|a [|b [|c [|d rest]]]].
    + cbn in H. injection H as <-. exists 0%nat. cbn. lia.
    + cbn in H. discriminate.
    + cbn in H. discriminate.
    + cbn in H. discriminate.
    + cbn [String.length] in Hlen. cbn [b64_decode_from] in H.
      destruct (b64_val a) as [va|]; [|discriminate].
      destruct (b64_val b) as [vb|]; [|discriminate].
      destruct (Ascii.eqb c pad && Ascii.eqb d pad).
      * destruct rest; cbn in H; [|discriminate].
        destruct (Z.land vb 15 =? 0); [|discriminate].
        injection H as <-. exists 1%nat. cbn. lia.
      * destruct (b64_val c) as [vc|]; [|discriminate].
        destruct (Ascii.eqb d pad).
        -- destruct rest; cbn in H; [|discriminate].
           destruct (Z.land vc 3 =? 0); [|discriminate].
           injection H as <-. exists 1%nat. cbn. lia.
        -- destruct (b64_val d) as [vd|]; [|discriminate].
           destruct (b64_decode_from (off + 4) rest) as [e|tl] eqn:Hr; [discriminate|].
           injection H as <-.
           destruct (IH rest (off + 4)%nat tl ltac:(lia) Hr) as (q & Hq & Hb).
           exists (S q). cbn [String.length length]. lia.
Qed.

Lemma b64_decode_shape (s : string) (bs : list Byte.byte) :
  b64_decode s = inr bs ->
  exists q, String.length s = (4 * q)%nat /\
    (length bs = 3 * q \/ (0 < q /\ (length bs = 3 * q - 1 \/ length bs = 3 * q - 2)))%nat.
Proof. apply (b64_decode_from_shape (String.length s)). lia. Qed.

Lemma b64_decode_nil (s : string) : b64_decode s = inr [] -> s = EmptyString.
Proof.
  intros H. destruct (b64_decode_shape s [] H) as (q & Hq & Hb). cbn in Hb.
  destruct s; [reflexivity|]. cbn in Hq. lia.
Qed.

(** What a successful decoding yields: some bytes, a [png] or [jpg]
    extension, from an image field that is not blank. *)
Lemma decode_ok_facts (image : string) (bytes : list Byte.byte) (ext : string) :
  decode_image_base64 image = inr (bytes, ext) ->
  bytes <> [] /\ (ext = "png" \/ ext = "jpg") /\ Str.is_empty (Str.trim image) = false.
Proof.
  unfold decode_image_base64.
  destruct (Str.strip_prefix "data:" image) as [rest|] eqn:Hs.
  - destruct (Str.split_once ";base64," rest) as [[mime b64]|]; [|discriminate].
    destruct (b64_decode _) as [e|[|x xs]]; [discriminate|discriminate|].
    intros H. injection H as <- <-.
    split; [discriminate|]. split; [destruct (Str.starts_with _ _); auto|].
    destruct (strip_data_trim_start _ _ Hs) as [Ht Hne].
    destruct (Str.trim image) eqn:E; [|reflexivity].
    apply trim_empty_iff in E. rewrite Ht in E. contradiction.
  - destruct (b64_decode (Str.trim image)) as [e|[|x xs]] eqn:Hd; [discriminate|discriminate|].
    intros H. injection H as <- <-.
    split; [discriminate|]. split; [auto|].
    destruct (Str.trim image) eqn:E; [|reflexivity]. cbn in Hd. discriminate.
Qed.

Lemma blank_no_data (image : string) :
  Str.trim image = EmptyString -> Str.strip_prefix "data:" image = None.
Proof.
  intros Ht. destruct (Str.strip_prefix "data:" image) as [r|] eqn:Hs; [|reflexivity].
  destruct (strip_data_trim_start _ _ Hs) as [E Hne].
  apply trim_empty_iff in Ht. rewrite E in Ht. contradiction.
Qed.

Lemma remove_all_exts_out (dir id p : string) (m : fs) :
  p <> image_path dir id "png" -> p <> image_path dir id "jpg" -> p <> image_path dir id "jpeg" ->
  remove_all_exts dir id m !! p = m !! p.
Proof.
  intros H1 H2 H3. unfold remove_all_exts, fs_remove. cbn [List.fold_left].
  rewrite !lookup_delete_ne by congruence. reflexivity.
Qed.

Lemma remove_all_exts_write (dir id x : string) (v : list Byte.byte) (m : fs) :
  In x ["png"; "jpg"; "jpeg"] ->
  remove_all_exts dir id (fs_write m (image_path dir id x) v) = remove_all_exts dir id m.
Proof.
  intros Hx. apply map_eq. intros p.
  destruct (decide (p = image_path dir id "png")) as [->|H1];
    [rewrite !HandlerClaims.remove_all_exts_gone by (cbn; tauto); reflexivity|].
  destruct (decide (p = image_path dir id "jpg")) as [->|H2];
    [rewrite !HandlerClaims.remove_all_exts_gone by (cbn; tauto); reflexivity|].
  destruct (decide (p = image_path dir id "jpeg")) as [->|H3];
    [rewrite !HandlerClaims.remove_all_exts_gone by (cbn; tauto); reflexivity|].
  rewrite !remove_all_exts_out by assumption. unfold fs_write.
  rewrite lookup_insert_ne; [reflexivity|].
  destruct Hx as [<-|[<-|[<-|[]]]]; congruence.
Qed.

(** The image field decides whether [decode_image_base64] answers "imagen
    vacía": exactly when the base64 body it decodes, trimmed, is empty
    (the whole field without a [data:] prefix, the part after
    [";base64,"] with one). *)
Theorem decode_image_base64_empty (image : string) :
  decode_image_base64 image = inl (ApiError_ (Validation "imagen vacía")) <->
  (Str.strip_prefix "data:" image = None /\ Str.trim image = EmptyString) \/
  (exists rest mime b64, Str.strip_prefix "data:" image = Some rest /\
     Str.split_once ";base64," rest = Some (mime, b64) /\ Str.trim b64 = EmptyString).
Proof.
  unfold decode_image_base64.
  destruct (Str.strip_prefix "data:" image) as [rest|] eqn:Hs.
  - destruct (Str.split_once ";base64," rest) as [[mime b64]|] eqn:Hsp.
    + destruct (b64_decode (Str.trim b64)) as [e|[|x xs]] eqn:Hd.
      * split; [intros H; injection H as H; discriminate H|].
        intros [[Hn _]|(r & m & b & Hr & Hm & Ht)]; [discriminate|].
        injection Hr as <-. rewrite Hsp in Hm. injection Hm as <- <-.
        rewrite Ht in Hd. discriminate.
      * split; [|reflexivity]. intros _. right.
        exists rest, mime, b64. split; [reflexivity|]. split; [exact Hsp|].
        apply b64_decode_nil. exact Hd.
      * split; [discriminate|].
        intros [[Hn _]|(r & m & b & Hr & Hm & Ht)]; [discriminate|].
        injection Hr as <-. rewrite Hsp in Hm. injection Hm as <- <-.
        rewrite Ht in Hd. discriminate.
    + split; [intros H; injection H as H; discriminate H|].
      intros [[Hn _]|(r & m & b & Hr & Hm & Ht)]; [discriminate|].
      injection Hr as <-. congruence.
  - destruct (b64_decode (Str.trim image)) as [e|[|x xs]] eqn:Hd.
    + split; [intros H; injection H as H; discriminate H|].
      intros [[_ Ht]|(r & m & b & Hr & _)]; [|discriminate].
      rewrite Ht in Hd. discriminate.
    + split; [|reflexivity]. intros _. left. split; [reflexivity|].
      apply b64_decode_nil. exact Hd.
    + split; [discriminate|].
      intros [[_ Ht]|(r & m & b & Hr & _)]; [|discriminate].
      rewrite Ht in Hd. discriminate.
Qed.

(** A successful decoding yields a non-empty byte string and a [png] or
    [jpg] extension; the base64 body it decoded (trimmed) is made of
    whole groups of four characters, [q] of them, and the bytes number
    [3q], or [3q - 1] or [3q - 2] when the last group was padded. *)
Theorem decode_image_base64_success (image : string) (bytes : list Byte.byte) (ext : string)
    (H : decode_image_base64 image = inr (bytes, ext)) :
  bytes <> [] /\ (ext = "png" \/ ext = "jpg") /\
  exists body q,
    ((Str.strip_prefix "data:" image = None /\ body = Str.trim image) \/
     (exists rest mime b64, Str.strip_prefix "data:" image = Some rest /\
        Str.split_once ";base64," rest = Some (mime, b64) /\ body = Str.trim b64)) /\
    String.length body = (4 * q)%nat /\
    (length bytes = 3 * q \/ length bytes = 3 * q - 1 \/ length bytes = 3 * q - 2)%nat.
Proof.
  destruct (decode_ok_facts image bytes ext H) as (Hne & Hext & _).
  split; [exact Hne|]. split; [exact Hext|].
  revert H. unfold decode_image_base64.
  destruct (Str.strip_prefix "data:" image) as [rest|] eqn:Hs.
  - destruct (Str.split_once ";base64," rest) as [[mime b64]|] eqn:Hsp; [|discriminate].
    destruct (b64_decode (Str.trim b64)) as [e|bs] eqn:Hd; [discriminate|].
    destruct bs as [|x xs]; [discriminate|]. intros H. injection H as <- _.
    destruct (b64_decode_shape _ _ Hd) as (q & Hq & Hb).
    exists (Str.trim b64), q. split; [right; exists rest, mime, b64; auto|].
    split; [exact Hq|lia].
  - destruct (b64_decode (Str.trim image)) as [e|bs] eqn:Hd; [discriminate|].
    destruct bs as [|x xs]; [discriminate|]. intros H. injection H as <- _.
    destruct (b64_decode_shape _ _ Hd) as (q & Hq & Hb).
    exists (Str.trim image), q. split; [left; auto|].
    split; [exact Hq|lia].
Qed.

Lemma decode_image_base64_success_witness :
  exists bytes ext, decode_image_base64 "data:image/png;base64,AAAA" = inr (bytes, ext) /\
    bytes <> [] /\ (ext = "png" \/ ext = "jpg").
Proof.
  exists [Byte.x00; Byte.x00; Byte.x00], "png".
  assert (H : decode_image_base64 "data:image/png;base64,AAAA"
              = inr ([Byte.x00; Byte.x00; Byte.x00], "png")) by (vm_compute; reflexivity).
  destruct (decode_image_base64_success _ _ _ H) as (Hne & Hext & _).
  split; [exact H|]. split; [exact Hne|exact Hext].
Defined.

Lemma blank_decode_empty (image : string) :
  Str.is_empty (Str.trim image) = true ->
  decode_image_base64 image = inl (ApiError_ (Validation "imagen vacía")).
Proof.
  intros Hb. assert (Ht : Str.trim image = EmptyString)
    by (destruct (Str.trim image); [reflexivity|discriminate]).
  unfold decode_image_base64. rewrite (blank_no_data image Ht), Ht. reflexivity.
Qed.

(** Every rejection of [create_pose], [add_portfolio_image] and
    [create_post] that comes before the write leaves the image directory
    as it was, whatever the repositories answer: a blank image field, a
    blank theme (no user lookup is made), a failed user lookup, and an
    image that does not decode (the insert is never reached; the error
    is the decoder's). *)
Theorem handlers_reject_before_write (dir cwd id category_id auth_email image : string)
    (create_pose_row : string -> string -> DomainError + Pose)
    (create_image_row : string -> string -> string -> DomainError + PortfolioImage)
    (get_by_email : Auth.get_by_email_fn)
    (create_post_row : string -> option string -> option string -> option string ->
                       string -> DomainError + Post)
    (body : CreatePostRequest) (st : fs) :
  (Str.is_empty (Str.trim image) = true ->
     create_pose dir id create_pose_row image st
       = (st, inl (ApiError_ (Validation "image_base64 es requerido"))) /\
     add_portfolio_image dir id category_id create_image_row image st
       = (st, inl (ApiError_ (Validation "image_base64 es requerido")))) /\
  (forall e, Str.is_empty (Str.trim image) = false -> decode_image_base64 image = inl e ->
     create_pose dir id create_pose_row image st = (st, inl e) /\
     add_portfolio_image dir id category_id create_image_row image st = (st, inl e)) /\
  (Str.is_empty (Str.trim (cp_image_base64 body)) = true ->
     create_post cwd dir id auth_email get_by_email create_post_row body st
       = (st, inl (ApiError_ (Validation "image_base64 es requerido")))) /\
  (Str.is_empty (Str.trim (cp_image_base64 body)) = false ->
   Str.is_empty (Str.trim (cp_theme_of_the_day_id body)) = true ->
     create_post cwd dir id auth_email get_by_email create_post_row body st
       = (st, inl (ApiError_ (Validation "theme_of_the_day_id es requerido")))) /\
  (forall e, Str.is_empty (Str.trim (cp_image_base64 body)) = false ->
   Str.is_empty (Str.trim (cp_theme_of_the_day_id body)) = false ->
   get_by_email auth_email = inl e ->
     create_post cwd dir id auth_email get_by_email create_post_row body st
       = (st, inl (ApiError_ e))) /\
  (forall e user, Str.is_empty (Str.trim (cp_image_base64 body)) = false ->
   Str.is_empty (Str.trim (cp_theme_of_the_day_id body)) = false ->
   get_by_email auth_email = inr user ->
   decode_image_base64 (cp_image_base64 body) = inl e ->
     create_post cwd dir id auth_email get_by_email create_post_row body st = (st, inl e)).
Proof.
  unfold create_pose, add_portfolio_image, create_post, save_pose_image_base64,
    save_portfolio_image_base64, save_post_image_base64, save_image_base64.
  split; [|split; [|split; [|split; [|split]]]].
  - intros Hb. rewrite Hb. split; reflexivity.
  - intros e Hb Hd. rewrite Hb, Hd. split; reflexivity.
  - intros Hb. rewrite Hb. reflexivity.
  - intros Hb Ht. rewrite Hb, Ht. reflexivity.
  - intros e Hb Ht Hg. rewrite Hb, Ht, Hg. reflexivity.
  - intros e user Hb Ht Hg Hd. rewrite Hb, Ht, Hg, Hd. reflexivity.
Qed.

(** When the image decodes and the portfolio insert then fails,
    [add_portfolio_image] returns the insert error and the image
    directory ends as it started with the three candidate files
    [{id}.png], [{id}.jpg] and [{id}.jpeg] removed: the new file is gone,
    and so is any file of another extension the id already had. *)
Theorem add_portfolio_image_failed_insert (dir id category_id image : string)
    (create_image_row : string -> string -> string -> DomainError + PortfolioImage)
    (st : fs) (bytes : list Byte.byte) (ext : string) (e : DomainError)
    (Hdec : decode_image_base64 image = inr (bytes, ext))
    (Hins : create_image_row id category_id ("/api/portfolio/images/" ++ id ++ "/image") = inl e) :
  add_portfolio_image dir id category_id create_image_row image st
    = (remove_all_exts dir id st, inl (ApiError_ e)) /\
  (forall p, p <> image_path dir id "png" -> p <> image_path dir id "jpg" ->
     p <> image_path dir id "jpeg" ->
     fst (add_portfolio_image dir id category_id create_image_row image st) !! p = st !! p).
Proof.
  destruct (decode_ok_facts image bytes ext Hdec) as (_ & Hext & Hb).
  assert (E : add_portfolio_image dir id category_id create_image_row image st
              = (remove_all_exts dir id st, inl (ApiError_ e))).
  { unfold add_portfolio_image, save_portfolio_image_base64, save_image_base64.
    rewrite Hb, Hdec, Hins. rewrite remove_all_exts_write; [reflexivity|].
    destruct Hext as [->| ->]; cbn; tauto. }
  split; [exact E|]. intros p H1 H2 H3. rewrite E. cbn [fst].
  apply remove_all_exts_out; assumption.
Qed.

Lemma add_portfolio_image_failed_insert_witness :
  add_portfolio_image "uploads/portfolio" "i1" "c1"
    (fun _ _ _ => inl (Repository "fk violation")) "AA=="
    {[ "uploads/portfolio/i1.png" := [Byte.x07]; "uploads/portfolio/other.jpg" := [Byte.x08] ]}
  = ({[ "uploads/portfolio/other.jpg" := [Byte.x08] ]},
     inl (ApiError_ (Repository "fk violation"))).
Proof.
  rewrite (proj1 (add_portfolio_image_failed_insert "uploads/portfolio" "i1" "c1" "AA=="
            (fun _ _ _ => inl (Repository "fk violation")) _ [Byte.x00] "jpg"
            (Repository "fk violation") ltac:(vm_compute; reflexivity) eq_refl)).
  vm_compute. reflexivity.
Defined.

(** Store, then serve: after [create_pose] or [add_portfolio_image]
    succeeds, [get_pose_image] and [get_portfolio_image] serve the
    decoded bytes with the content type of their extension, provided the
    image is a png or no png file of that id was there before (a png is
    probed first). *)
Theorem create_then_serve (dir id category_id image : string)
    (create_pose_row : string -> string -> DomainError + Pose)
    (create_image_row : string -> string -> string -> DomainError + PortfolioImage)
    (st : fs) (bytes : list Byte.byte) (ext : string) (p : Pose) (pi : PortfolioImage)
    (Hdec : decode_image_base64 image = inr (bytes, ext))
    (Hfresh : ext = "png" \/ st !! image_path dir id "png" = None)
    (Hp : create_pose_row id ("/api/poses/" ++ id ++ "/image") = inr p)
    (Hi : create_image_row id category_id ("/api/portfolio/images/" ++ id ++ "/image") = inr pi) :
  snd (create_pose dir id create_pose_row image st) = inr p /\
  get_pose_image dir id (fst (create_pose dir id create_pose_row image st))
    = inr (bytes, content_type_of ext) /\
  snd (add_portfolio_image dir id category_id create_image_row image st) = inr pi /\
  get_portfolio_image dir id (fst (add_portfolio_image dir id category_id create_image_row image st))
    = inr (bytes, content_type_of ext).
Proof.
  destruct (decode_ok_facts image bytes ext Hdec) as (_ & Hext & Hb).
  assert (Hprobe : probe dir id ["png"; "jpg"; "jpeg"] (fs_write st (image_path dir id ext) bytes)
                   = Some (bytes, content_type_of ext)).
  { unfold fs_write. cbn [probe].
    destruct Hext as [->| ->].
    - rewrite lookup_insert_eq. reflexivity.
    - destruct Hfresh as [Hc|Hn]; [discriminate|].
      rewrite lookup_insert_ne by (apply not_eq_sym, ImageClaims.png_ne_jpg). rewrite Hn.
      rewrite lookup_insert_eq. reflexivity. }
  unfold create_pose, add_portfolio_image, save_pose_image_base64,
    save_portfolio_image_base64, save_image_base64.
  rewrite Hb, Hdec, Hp, Hi. cbn [fst snd].
  unfold get_pose_image, get_portfolio_image. rewrite Hprobe.
  split; [reflexivity|]. split; [reflexivity|]. split; reflexivity.
Qed.

Lemma create_then_serve_witness :
  get_pose_image "uploads/poses" "p1"
    (fst (create_pose "uploads/poses" "p1" (fun i u => inr (mk_pose i u)) "AA==" ∅))
  = inr ([Byte.x00], "image/jpeg").
Proof.
  refine (proj1 (proj2 (create_then_serve "uploads/poses" "p1" "c1" "AA=="
            (fun i u => inr (mk_pose i u)) (fun i c u => inr (mk_portfolio_image i c u))
            ∅ [Byte.x00] "jpg" (mk_pose "p1" "/api/poses/p1/image")
            (mk_portfolio_image "p1" "c1" "/api/portfolio/images/p1/image")
            _ _ eq_refl eq_refl))).
  all: first [right; reflexivity | vm_compute; reflexivity].
Defined.

End ImageFacts.

Module LoginFacts.

Lemma list_ascii_of_string_app (a b : string) :
  list_ascii_of_string (a ++ b) = (list_ascii_of_string a ++ list_ascii_of_string b)%list.
Proof. induction a as [|c a IH]; cbn; [reflexivity|]. rewrite IH. reflexivity. Qed.

Lemma rev_str_app (a b : string) : Str.rev_str (a ++ b) = Str.rev_str b ++ Str.rev_str a.
Proof.
  unfold Str.rev_str. rewrite list_ascii_of_string_app, List.rev_app_distr.
  apply ImageFacts.string_of_list_ascii_app.
Qed.

Lemma rev_str_involutive (s : string) : Str.rev_str (Str.rev_str s) = s.
Proof.
  unfold Str.rev_str. rewrite list_ascii_of_string_of_list_ascii, List.rev_involutive.
  apply string_of_list_ascii_of_string.
Qed.

Lemma trim_start_decomp (s : string) :
  exists a, s = a ++ Str.trim_start s.
Proof.
  induction s as [|c s IH]; [exists EmptyString; reflexivity|]. cbn.
  destruct (Str.is_ws c).
  - destruct IH as [a Ha]. exists (String c a). cbn. rewrite <- Ha. reflexivity.
  - exists EmptyString. reflexivity.
Qed.

Lemma trim_start_fixed (t : string) :
  (forall c r, t = String c r -> Str.is_ws c = false) -> Str.trim_start t = t.
Proof.
  destruct t as [|c r]; [reflexivity|]. intros H. cbn. rewrite (H c r eq_refl). reflexivity.
Qed.

Lemma trim_start_trim_start (s : string) : Str.trim_start (Str.trim_start s) = Str.trim_start s.
Proof. apply trim_start_fixed. intros c r E. exact (ImageFacts.trim_start_head s c r E). Qed.

(** [str::trim] is idempotent. *)
Lemma trim_trim (s : string) : Str.trim (Str.trim s) = Str.trim s.
Proof.
  unfold Str.trim, Str.trim_end.
  set (M := Str.trim_start s).
  set (N := Str.trim_start (Str.rev_str M)).
  destruct (trim_start_decomp (Str.rev_str M)) as [C HC]. fold N in HC.
  assert (HM : M = Str.rev_str N ++ Str.rev_str C)
    by (rewrite <- rev_str_app, <- HC, rev_str_involutive; reflexivity).
  assert (H1 : Str.trim_start (Str.rev_str N) = Str.rev_str N).
  { apply trim_start_fixed. intros c r E.
    apply (ImageFacts.trim_start_head s c (r ++ Str.rev_str C)).
    fold M. rewrite HM, E. reflexivity. }
  rewrite H1, rev_str_involutive. unfold N. rewrite trim_start_trim_start. reflexivity.
Qed.

(** [login] trims the email before looking the user up: an email with
    surrounding whitespace gets the same answer as the trimmed one, from
    the same repository call. *)
Theorem login_trims_email (get_by_email : Auth.get_by_email_fn)
    (bcrypt_verify : Auth.bcrypt_verify_fn) (jwt_secret : string) (now : Z)
    (email password : string) :
  Auth.login get_by_email bcrypt_verify jwt_secret now (Auth.mk_login_request email password)
  = Auth.login get_by_email bcrypt_verify jwt_secret now
      (Auth.mk_login_request (Str.trim email) password).
Proof. unfold Auth.login. cbn [Auth.req_email Auth.req_password]. rewrite trim_trim. reflexivity. Qed.

End LoginFacts.
